(** * stock_ai: the webhook coordinator and the incremental sync engine

    A shallow embedding of [app.py] (token check, single-flight webhook,
    background worker) and of [get_data/get_data.py] (ticker discovery and
    the per-ticker incremental fetch), followed by the properties of the
    design document that were checked against them.

    Conventions.  A Python [str] is a [string] whose characters are code
    points below 256 (HTTP headers reach Flask decoded as Latin-1, tickers
    are ASCII).  An exception is a value of [exn]; code that may raise
    returns a [result].  Logging is an append to a list of records. *)

From Stdlib Require Import ZArith QArith_base Ascii String List Bool Lia.
From stdpp Require Import base decidable option list sorting strings gmap.

Open Scope string_scope.
Open Scope list_scope.

(* ===================================================================== *)
(** * Python values shared by both modules                                *)
(* ===================================================================== *)

Module Py.

(** The exception classes that occur.  The first three derive from
    [BaseException] only; every other class derives from [Exception]. *)
Inductive exn_class :=
| KeyboardInterrupt
| SystemExit
| GeneratorExit
| AttributeError
| ValueError
| TypeError
| OverflowError
| OtherException (name : string).

Record exn := Exn { exn_type : exn_class; exn_msg : string }.

(** [isinstance(e, Exception)]: what a clause [except Exception] catches. *)
Definition isinstance_Exception (e : exn) : bool :=
  match exn_type e with
  | KeyboardInterrupt | SystemExit | GeneratorExit => false
  | _ => true
  end.

(** [isinstance(e, AttributeError)]. *)
Definition isinstance_AttributeError (e : exn) : bool :=
  match exn_type e with
  | AttributeError => true
  | _ => false
  end.

(** The outcome of a call: a value, or a raised exception. *)
Inductive result (A : Type) :=
| Ok (a : A)
| Raise (e : exn).
Arguments Ok {A} a.
Arguments Raise {A} e.

Definition bind {A B} (r : result A) (k : A -> result B) : result B :=
  match r with
  | Ok a => k a
  | Raise e => Raise e
  end.

(** Logging levels and records ([logging.info], [warning], [error], [debug]). *)
Inductive level := DEBUG | INFO | WARNING | ERROR.

(** The arguments of a format string: [%s] and [%d]. *)
Inductive log_arg :=
| Str (s : string)
| Int (n : Z).

Record log_record := Log { log_level : level; log_msg : string; log_args : list log_arg }.

(** ** [str] methods *)

Definition code (c : ascii) : N := N_of_ascii c.

(** [c.isspace()] for a code point below 256. *)
Definition isspace (c : ascii) : bool :=
  let n := code c in
  ((9 <=? n) && (n <=? 13) || (28 <=? n) && (n <=? 32) || (n =? 133) || (n =? 160))%N.

(** [c.lower()] for a code point below 256: A-Z, and the Latin-1 capitals
    U+00C0..U+00DE without the multiplication sign U+00D7. *)
Definition lower_char (c : ascii) : ascii :=
  let n := code c in
  if ((65 <=? n) && (n <=? 90) || (192 <=? n) && (n <=? 222) && negb (n =? 215))%N
  then ascii_of_N (n + 32) else c.

Fixpoint lower (s : string) : string :=
  match s with
  | EmptyString => EmptyString
  | String c s' => String (lower_char c) (lower s')
  end.

(** [s.split()] with no separator: the maximal runs of non-space
    characters; leading and trailing white space yields no empty word. *)
Fixpoint split_from (word : string) (s : string) : list string :=
  match s with
  | EmptyString => if decide (word = "") then [] else [word]
  | String c s' =>
      if isspace c
      then (if decide (word = "") then split_from "" s' else word :: split_from "" s')
      else split_from (word ++ String c "")%string s'
  end.

Definition split (s : string) : list string := split_from "" s.

(** [s.replace(old, new)] for one-character [old] and [new]. *)
Fixpoint replace (old new : ascii) (s : string) : string :=
  match s with
  | EmptyString => EmptyString
  | String c s' => String (if decide (c = old) then new else c) (replace old new s')
  end.

(** [len(s)]. *)
Definition len (s : string) : nat := String.length s.

End Py.

Import Py.

(* ===================================================================== *)
(** * app.py                                                              *)
(* ===================================================================== *)

Module App.

(** A Flask response: [jsonify(body), status]. *)
Record response := Response { body : list (string * string); status : Z }.

Definition missing_token : response :=
  Response [("error", "Missing authorization token")] 401.
Definition invalid_token : response :=
  Response [("error", "Invalid token")] 401.
Definition invalid_format : response :=
  Response [("error", "Invalid authorization header format")] 401.
Definition already_running : response :=
  Response [("status", "error");
            ("message", "A task is already running. Please try again later.")] 429.
Definition accepted : response :=
  Response [("status", "success");
            ("message", "Task accepted and is running in the background.")] 202.

(** What [decorated_function] does before it calls the wrapped view:
    either it returns a response itself, or it goes on to [f]. *)
Inductive auth_outcome :=
| Rejected (l : log_record) (r : response)
| Passed.

(** [require_token]: the body of [decorated_function] up to [return f(...)].
    [WEBHOOK_TOKEN] is read from the environment at import time.
    [not auth_header] holds for a missing header and for the empty one;
    the tuple assignment raises [ValueError] unless [split()] gives
    exactly two words, which the [except ValueError] clause answers.
    (The texts logged by this module, Chinese in the source, are given in
    English.) *)
Definition require_token (WEBHOOK_TOKEN : string) (auth_header : option string)
  : auth_outcome :=
  match auth_header with
  | None => Rejected (Log WARNING "Webhook: missing Authorization header" []) missing_token
  | Some "" => Rejected (Log WARNING "Webhook: missing Authorization header" []) missing_token
  | Some h =>
      match split h with
      | [auth_type; token] =>
          if negb (bool_decide (lower auth_type = "bearer"))
             || negb (bool_decide (token = WEBHOOK_TOKEN))
          then Rejected (Log WARNING "Webhook: invalid token" []) invalid_token
          else Passed
      | _ => Rejected (Log WARNING "Webhook: malformed Authorization header" []) invalid_format
      end
  end.

(** ** The threads of the process

    Every request runs [decorated_function] and then [webhook_trigger] on a
    thread of its own; an accepted request starts one more thread running
    [run_task_in_background].  A program counter names the statement a
    thread executes next. *)

Inductive handler_pc :=
| H_entry (auth_header : option string)  (* decorated_function *)
| H_acquire                              (* with task_lock: *)
| H_test                                 (*   if task_running: *)
| H_busy                                 (*     warning; return ..., 429 *)
| H_set                                  (*   task_running = True *)
| H_release                              (* leaving the with block *)
| H_start                                (* thread.start() *)
| H_accepted                             (* info; return ..., 202 *)
| H_returned (r : response).

Inductive worker_pc :=
| W_begin                                (* try: info *)
| W_call                                 (*   run_data_collection() *)
| W_ok                                   (*   info *)
| W_except (e : exn)                     (* except Exception as e: error *)
| W_finally (pending : option exn)       (* finally: with task_lock: *)
| W_reset (pending : option exn)         (*   task_running = False *)
| W_exit (pending : option exn)          (* leaving the with block *)
| W_dead (uncaught : option exn).

Inductive thread :=
| Handler (pc : handler_pc)
| Worker (parent : nat) (pc : worker_pc).

(** What a thread does to the world, in the order it happens. *)
Inductive event :=
| EvLog (r : log_record)
| EvSetRunning (b : bool)
| EvStart (child : nat)
| EvResponse (r : response).

(** The module globals [task_running] and [task_lock] (a [threading.Lock]
    is locked or not and has no owner), the threads, and the trace. *)
Record state := State {
  task_running : bool;
  task_lock : bool;
  threads : list thread;
  trace : list (nat * event)
}.

Definition init : state := State false false [] [].

Definition set_thread (i : nat) (t : thread) (s : state) : state :=
  State (task_running s) (task_lock s) (<[i:=t]> (threads s)) (trace s).
Definition set_running (b : bool) (s : state) : state :=
  State b (task_lock s) (threads s) (trace s).
Definition set_lock (b : bool) (s : state) : state :=
  State (task_running s) b (threads s) (trace s).
Definition emit (i : nat) (e : event) (s : state) : state :=
  State (task_running s) (task_lock s) (threads s) (trace s ++ [(i, e)]).
Definition spawn (t : thread) (s : state) : state :=
  State (task_running s) (task_lock s) (threads s ++ [t]) (trace s).

(** A request reaches the server: a new handler thread. *)
Definition arrive (auth_header : option string) (s : state) : state :=
  spawn (Handler (H_entry auth_header)) s.

(** One statement of [webhook_trigger] behind [require_token], run by
    thread [i].  [None]: the thread cannot move (it waits for the lock). *)
Definition step_handler (WEBHOOK_TOKEN : string) (i : nat) (pc : handler_pc)
    (s : state) : option state :=
  match pc with
  | H_entry h =>
      match require_token WEBHOOK_TOKEN h with
      | Rejected l r =>
          Some (set_thread i (Handler (H_returned r))
                  (emit i (EvResponse r) (emit i (EvLog l) s)))
      | Passed => Some (set_thread i (Handler H_acquire) s)
      end
  | H_acquire =>
      if task_lock s then None
      else Some (set_thread i (Handler H_test) (set_lock true s))
  | H_test =>
      if task_running s
      then Some (set_thread i (Handler H_busy) s)
      else Some (set_thread i (Handler H_set) s)
  | H_busy =>
      Some (set_thread i (Handler (H_returned already_running))
              (emit i (EvResponse already_running)
                 (set_lock false
                    (emit i (EvLog (Log WARNING "Webhook triggered, but a task is already running" [])) s))))
  | H_set =>
      Some (set_thread i (Handler H_release)
              (emit i (EvSetRunning true) (set_running true s)))
  | H_release =>
      Some (set_thread i (Handler H_start) (set_lock false s))
  | H_start =>
      Some (set_thread i (Handler H_accepted)
              (emit i (EvStart (length (threads s)))
                 (spawn (Worker i W_begin) s)))
  | H_accepted =>
      Some (set_thread i (Handler (H_returned accepted))
              (emit i (EvResponse accepted)
                 (emit i (EvLog (Log INFO "Webhook accepted, task started in the background" [])) s)))
  | H_returned _ => None
  end.

(** One statement of [run_task_in_background], run by thread [i] started by
    [parent].  [o] is how [run_data_collection()] ends when it ends now; an
    exception that is not an [Exception] skips the [except] clause and stays
    pending through the [finally] block. *)
Definition step_worker (i parent : nat) (pc : worker_pc) (o : result unit)
    (s : state) : option state :=
  match pc with
  | W_begin =>
      Some (set_thread i (Worker parent W_call)
              (emit i (EvLog (Log INFO "Background task starting" [])) s))
  | W_call =>
      match o with
      | Ok _ => Some (set_thread i (Worker parent W_ok) s)
      | Raise e =>
          if isinstance_Exception e
          then Some (set_thread i (Worker parent (W_except e)) s)
          else Some (set_thread i (Worker parent (W_finally (Some e))) s)
      end
  | W_ok =>
      Some (set_thread i (Worker parent (W_finally None))
              (emit i (EvLog (Log INFO "Background task finished" [])) s))
  | W_except e =>
      Some (set_thread i (Worker parent (W_finally None))
              (emit i (EvLog (Log ERROR "Background task failed" [Str (exn_msg e)])) s))
  | W_finally p =>
      if task_lock s then None
      else Some (set_thread i (Worker parent (W_reset p)) (set_lock true s))
  | W_reset p =>
      Some (set_thread i (Worker parent (W_exit p))
              (emit i (EvSetRunning false) (set_running false s)))
  | W_exit p =>
      Some (set_thread i (Worker parent (W_dead p)) (set_lock false s))
  | W_dead _ => None
  end.

Definition step_thread (WEBHOOK_TOKEN : string) (i : nat) (o : result unit)
    (s : state) : option state :=
  match threads s !! i with
  | Some (Handler pc) => step_handler WEBHOOK_TOKEN i pc s
  | Some (Worker parent pc) => step_worker i parent pc o s
  | None => None
  end.

(** The scheduler: any request may arrive, any thread that can move may. *)
Inductive action :=
| Arrive (auth_header : option string)
| Run (i : nat) (o : result unit).

Definition perform (WEBHOOK_TOKEN : string) (a : action) (s : state) : option state :=
  match a with
  | Arrive h => Some (arrive h s)
  | Run i o => step_thread WEBHOOK_TOKEN i o s
  end.

Fixpoint run (WEBHOOK_TOKEN : string) (sched : list action) (s : state) : option state :=
  match sched with
  | [] => Some s
  | a :: sched' =>
      match perform WEBHOOK_TOKEN a s with
      | Some s' => run WEBHOOK_TOKEN sched' s'
      | None => None
      end
  end.

Definition step (WEBHOOK_TOKEN : string) (s s' : state) : Prop :=
  exists a, perform WEBHOOK_TOKEN a s = Some s'.

Definition reachable (WEBHOOK_TOKEN : string) (s : state) : Prop :=
  rtc (step WEBHOOK_TOKEN) init s.

(** ** Observations on a state *)

Definition count (P : thread -> bool) (l : list thread) : nat :=
  length (filter (fun t => P t = true) l).

(** The thread is inside a [with task_lock:] block. *)
Definition in_lock (t : thread) : bool :=
  match t with
  | Handler (H_test | H_busy | H_set | H_release) => true
  | Worker _ (W_reset _ | W_exit _) => true
  | _ => false
  end.

(** The thread is a background worker that has not finished. *)
Definition live_worker (t : thread) : bool :=
  match t with
  | Worker _ (W_dead _) => false
  | Worker _ _ => true
  | Handler _ => false
  end.

(** The thread accounts for [task_running = True]: the handler that set it
    and has not started its worker yet, or the worker before its reset. *)
Definition owns_run (t : thread) : bool :=
  match t with
  | Handler (H_release | H_start) => true
  | Worker _ (W_begin | W_call | W_ok | W_except _ | W_finally _ | W_reset _) => true
  | _ => false
  end.


(** How often thread [i] wrote [b] to [task_running]. *)
Definition is_write (i : nat) (b : bool) (x : nat * event) : bool :=
  match x with
  | (j, EvSetRunning b') => bool_decide (j = i) && bool_decide (b' = b)
  | _ => false
  end.

Definition writes (i : nat) (b : bool) (tr : list (nat * event)) : nat :=
  length (filter (fun x => is_write i b x = true) tr).

(** The response thread [i] gave, if it has returned. *)
Definition response_of (s : state) (i : nat) : option response :=
  match threads s !! i with
  | Some (Handler (H_returned r)) => Some r
  | _ => None
  end.

(** The thread is between the test that found [task_running] false and
    the write, or has just written [False] and still holds the lock. *)
Definition pre_write (t : thread) : bool :=
  match t with
  | Handler H_set => true
  | Worker _ (W_exit _) => true
  | _ => false
  end.

(** The worker has executed [task_running = False]. *)
Definition reset_done (t : thread) : bool :=
  match t with
  | Worker _ (W_exit _ | W_dead _) => true
  | _ => false
  end.

(** Every worker was started by a handler that went past [thread.start()]. *)
Definition parents_ok (l : list thread) : Prop :=
  forall j p pc,
    l !! j = Some (Worker p pc) ->
    l !! p = Some (Handler H_accepted)
    \/ l !! p = Some (Handler (H_returned accepted)).

(** Only a worker's reset writes [False], and it does so once. *)
Definition writes_ok (tr : list (nat * event)) (l : list thread) : Prop :=
  forall i,
    writes i false tr
    = match l !! i with
      | Some t => Nat.b2n (reset_done t)
      | None => 0
      end.

(** What holds in every state the process can be in. *)
Record Inv (s : state) : Prop := {
  (* the lock is taken exactly when one thread is inside a with block *)
  inv_lock : count in_lock (threads s) = Nat.b2n (task_lock s);
  (* the flag is set exactly when one thread accounts for it *)
  inv_run : count owns_run (threads s) = Nat.b2n (task_running s);
  inv_pre : task_running s = true -> count pre_write (threads s) = 0;
  inv_parent : parents_ok (threads s);
  inv_writes : writes_ok (trace s) (threads s)
}.

(** A header that carries the right credential: two words, the scheme
    "bearer" in any letter case, and the configured token. *)
Definition credential_ok (WEBHOOK_TOKEN : string) (auth_header : option string) : Prop :=
  exists h auth_type token,
    auth_header = Some h /\ split h = [auth_type; token]
    /\ lower auth_type = "bearer" /\ token = WEBHOOK_TOKEN.


(** ** A scenario: one run in progress, a second request at the lock *)

Definition demo_token : string := "default-secret-token".

(** The first request is accepted and its worker is inside
    [run_data_collection]; a second request has passed the token check. *)
Definition busy_schedule : list action :=
  [Arrive (Some "Bearer default-secret-token");
   Run 0 (Ok tt); Run 0 (Ok tt); Run 0 (Ok tt); Run 0 (Ok tt);
   Run 0 (Ok tt); Run 0 (Ok tt); Run 0 (Ok tt);
   Run 1 (Ok tt);
   Arrive (Some "Bearer default-secret-token");
   Run 2 (Ok tt)].

Definition busy_state : state :=
  default init (run demo_token busy_schedule init).

End App.

(* ===================================================================== *)
(** * get_data/get_data.py                                                *)
(* ===================================================================== *)

Module GetData.

(** ** Calendar dates ([datetime.date]) *)

Record date := MkDate { year : Z; month : Z; day : Z }.

Definition is_leap (y : Z) : bool :=
  ((y mod 4 =? 0) && (negb (y mod 100 =? 0) || (y mod 400 =? 0)))%Z.

Definition days_in_month (y m : Z) : Z :=
  (if (m =? 2) then (if is_leap y then 29 else 28)
   else if (m =? 4) || (m =? 6) || (m =? 9) || (m =? 11) then 30
   else 31)%Z.

(** What the [date] constructor accepts: MINYEAR = 1, MAXYEAR = 9999. *)
Definition valid_date (d : date) : bool :=
  ((1 <=? year d) && (year d <=? 9999) && (1 <=? month d) && (month d <=? 12)
   && (1 <=? day d) && (day d <=? days_in_month (year d) (month d)))%Z.

(** Dates compare as their (year, month, day) triples. *)
Definition date_key (d : date) : Z := (year d * 10000 + month d * 100 + day d)%Z.
Definition date_le (a b : date) : Prop := (date_key a <= date_key b)%Z.
Definition date_lt (a b : date) : Prop := (date_key a < date_key b)%Z.
Definition date_max (a b : date) : date :=
  if (date_key a <? date_key b)%Z then b else a.

(** [d + timedelta(days=1)]; past [date.max] Python raises OverflowError. *)
Definition add_one_day (d : date) : result date :=
  if (day d <? days_in_month (year d) (month d))%Z
  then Ok (MkDate (year d) (month d) (day d + 1))
  else if (month d <? 12)%Z
  then Ok (MkDate (year d) (month d + 1) 1)
  else if (year d <? 9999)%Z
  then Ok (MkDate (year d + 1) 1 1)
  else Raise (Exn OverflowError "date value out of range").

Definition digit (n : Z) : ascii := ascii_of_N (48 + Z.to_N (n mod 10)).

Definition pad2 (n : Z) : string :=
  String (digit (n / 10)) (String (digit n) "").
Definition pad4 (n : Z) : string :=
  String (digit (n / 1000)) (String (digit (n / 100)) (pad2 n)).

(** [d.strftime('%Y-%m-%d')], the year written with four digits. *)
Definition strftime (d : date) : string :=
  (pad4 (year d) ++ "-" ++ pad2 (month d) ++ "-" ++ pad2 (day d))%string.

Definition digit_value (c : ascii) : option Z :=
  let n := code c in
  if ((48 <=? n) && (n <=? 57))%N then Some (Z.of_N n - 48)%Z else None.

Definition unconverted : exn := Exn ValueError "time data does not match format '%Y-%m-%d'".

(** The day field of the format: [3[0-1]|[1-2]\d|0[1-9]|[1-9]| [1-9]],
    with nothing allowed after it. *)
Definition parse_day (s : string) : option Z :=
  match s with
  | String a (String b "") =>
      match digit_value a, digit_value b with
      | Some x, Some y =>
          let n := (10 * x + y)%Z in
          if ((1 <=? n) && (n <=? 31))%Z then Some n else None
      | None, Some y =>
          if bool_decide (a = " "%char) && (1 <=? y)%Z then Some y else None
      | _, _ => None
      end
  | String a "" =>
      match digit_value a with
      | Some x => if (1 <=? x)%Z then Some x else None
      | None => None
      end
  | _ => None
  end.

(** The month field [1[0-2]|0[1-9]|[1-9]] followed by the literal '-'. *)
Definition parse_month (s : string) : option (Z * string) :=
  match s with
  | String a (String "-" rest) =>
      match digit_value a with
      | Some x => if (1 <=? x)%Z then Some (x, rest) else None
      | None => None
      end
  | String a (String b (String "-" rest)) =>
      match digit_value a, digit_value b with
      | Some x, Some y =>
          let n := (10 * x + y)%Z in
          if ((1 <=? n) && (n <=? 12))%Z then Some (n, rest) else None
      | _, _ => None
      end
  | _ => None
  end.

(** The year field [\d\d\d\d] followed by the literal '-'. *)
Definition parse_year (s : string) : option (Z * string) :=
  match s with
  | String a (String b (String c (String d (String "-" rest)))) =>
      match digit_value a, digit_value b, digit_value c, digit_value d with
      | Some w, Some x, Some y, Some z => Some ((1000 * w + 100 * x + 10 * y + z)%Z, rest)
      | _, _, _, _ => None
      end
  | _ => None
  end.

(** [datetime.strptime(s, '%Y-%m-%d').date()]: ValueError when the text
    does not match the format or names no date of the calendar. *)
Definition strptime (s : string) : result date :=
  match parse_year s with
  | Some (y, s1) =>
      match parse_month s1 with
      | Some (m, s2) =>
          match parse_day s2 with
          | Some d =>
              if valid_date (MkDate y m d) then Ok (MkDate y m d)
              else Raise (Exn ValueError "day is out of range for month")
          | None => Raise unconverted
          end
      | None => Raise unconverted
      end
  | None => Raise unconverted
  end.

(** ** The regular expression of the ticker filter

    The part of [re] that the pattern uses, in the parsed form [sre_parse]
    gives it: anchors and a greedy repeat of a character set. *)

Inductive set_item :=
| LITERAL (c : ascii)
| RANGE (lo hi : ascii).

Inductive sre :=
| AT_BEGINNING                                  (* ^ *)
| AT_END                                        (* $ *)
| MAX_REPEAT_IN (min : nat) (set : list set_item).   (* [...]+ *)

Definition in_set (set : list set_item) (c : ascii) : bool :=
  existsb (fun it =>
    match it with
    | LITERAL x => bool_decide (c = x)
    | RANGE lo hi => ((code lo <=? code c) && (code c <=? code hi))%N
    end) set.

Definition newline : ascii := ascii_of_N 10.

(** A greedy repeat of a character set, [n] characters taken so far: take
    one more if the set allows and see whether the rest of the pattern
    [k] matches behind it; if not, stop here, provided [min] are taken. *)
Fixpoint max_repeat (set : list set_item) (min : nat) (k : nat -> string -> bool)
    (n pos : nat) (s : string) : bool :=
  match s with
  | String c s' =>
      if in_set set c
      then max_repeat set min k (S n) (S pos) s' || (Nat.leb min n && k pos s)
      else Nat.leb min n && k pos s
  | EmptyString => Nat.leb min n && k pos s
  end.

(** Match pattern [p] against [s], the text from offset [pos] on.  Without
    flags [^] holds at offset 0 only, and [$] holds at the end of the text
    and also just before a newline that ends the text. *)
Fixpoint sre_match (p : list sre) (pos : nat) (s : string) : bool :=
  match p with
  | [] => true
  | AT_BEGINNING :: p' => Nat.eqb pos 0 && sre_match p' pos s
  | AT_END :: p' =>
      (bool_decide (s = "") || bool_decide (s = String newline "")) && sre_match p' pos s
  | MAX_REPEAT_IN min set :: p' => max_repeat set min (sre_match p') 0 pos s
  end.

(** [re.search(p, s)] as a truth value: a match starting at some offset. *)
Fixpoint search_from (p : list sre) (pos : nat) (s : string) : bool :=
  sre_match p pos s
  || match s with
     | String _ s' => search_from p (S pos) s'
     | EmptyString => false
     end.

Definition re_search (p : list sre) (s : string) : bool := search_from p 0 s.

(** [[A-Z-.]]: after the range, '-' and '.' stand for themselves. *)
Definition ticker_set : list set_item :=
  [RANGE "A" "Z"; LITERAL "-"; LITERAL "."].

(** [r"^[A-Z-.]+$"] *)
Definition ticker_pattern : list sre :=
  [AT_BEGINNING; MAX_REPEAT_IN 1 ticker_set; AT_END].

(** ** Ticker discovery *)

(** The four listing calls of [yahoo_fin.stock_info], each with the way it
    ends when it is made. *)
Record stock_info := StockInfo {
  tickers_sp500 : result (list string);
  tickers_dow : result (list string);
  tickers_nasdaq : result (list string);
  tickers_etfs : result (list string)
}.

(** [sorted(list(set(tickers)))]: the distinct strings in code-point order
    (one sorted list exists, whichever algorithm builds it). *)
Definition sorted_set (tickers : list string) : list string :=
  merge_sort String.le (remove_dups tickers).

Definition valid_ticker (t : string) : bool :=
  re_search ticker_pattern t && Nat.leb (len t) 64.

(** The safe-name alphabet of the design document: upper-case letters,
    '-' and '.'; a safe name is a non-empty text over it. *)
Definition safe_char (c : ascii) : bool :=
  ((65 <=? code c) && (code c <=? 90))%N
  || bool_decide (c = "-"%char) || bool_decide (c = "."%char).

Fixpoint all_safe (s : string) : bool :=
  match s with
  | EmptyString => true
  | String c s' => safe_char c && all_safe s'
  end.

Definition safe_name (t : string) : bool :=
  negb (bool_decide (t = "")) && all_safe t.

(** [t] without the newline it ends with, if it ends with one. *)
Fixpoint strip_final_newline (t : string) : string :=
  match t with
  | EmptyString => EmptyString
  | String c EmptyString => if bool_decide (c = newline) then EmptyString else t
  | String c t' => String c (strip_final_newline t')
  end.

(** What a function leaves behind: the records it logged and either its
    value or the exception that left it. *)
Definition logged (A : Type) : Type := list log_record * result A.

(** The first [try] block: three [extend] calls under one handler.  The
    list keeps what the calls before the failing one appended. *)
Definition index_block (si : stock_info) : list string * option exn :=
  match tickers_sp500 si with
  | Raise e => ([], Some e)
  | Ok l1 =>
      match tickers_dow si with
      | Raise e => (l1, Some e)
      | Ok l2 =>
          match tickers_nasdaq si with
          | Raise e => (l1 ++ l2, Some e)
          | Ok l3 => (l1 ++ l2 ++ l3, None)
          end
      end
  end.

Definition fetch_all_tickers (si : stock_info) : logged (list string) :=
  let log0 := [Log INFO "Fetching list of all tickers from yahoo_fin..." []] in
  let '(tickers, x) := index_block si in
  (* except Exception as e *)
  let after_first : list log_record * option exn :=
    match x with
    | None => (log0, None)
    | Some e =>
        if isinstance_Exception e
        then (log0 ++ [Log ERROR "Failed to fetch tickers for S&P 500, Dow, or NASDAQ: %s" [Str (exn_msg e)]], None)
        else (log0, Some e)
    end in
  match after_first with
  | (logs, Some e) => (logs, Raise e)
  | (logs, None) =>
      (* the second try block *)
      let second : list string * list log_record * option exn :=
        match tickers_etfs si with
        | Ok l4 => (tickers ++ l4, logs, None)
        | Raise e =>
            if isinstance_AttributeError e
            then (tickers, logs ++ [Log WARNING "si.tickers_etfs() is unavailable or deprecated, skipping ETFs." []], None)
            else if isinstance_Exception e
            then (tickers, logs ++ [Log ERROR "Failed to fetch ETF tickers: %s" [Str (exn_msg e)]], None)
            else (tickers, logs, Some e)
        end in
      match second with
      | (_, logs, Some e) => (logs, Raise e)
      | (tickers, logs, None) =>
          let unique_tickers := sorted_set tickers in
          let valid_tickers := filter (fun t => valid_ticker t = true) unique_tickers in
          (logs ++ [Log INFO "Found %d unique, valid tickers for DB."
                      [Int (Z.of_nat (List.length valid_tickers))]],
           Ok valid_tickers)
      end
  end.

(** The candidates a call of [fetch_all_tickers] gathers before it sorts
    and filters them. *)
Definition collected (si : stock_info) : list string :=
  fst (index_block si)
  ++ match tickers_etfs si with
     | Ok l4 => l4
     | Raise _ => []
     end.

(** S&P 500 is unreachable, the other three sources answer. *)
Definition sp500_down : stock_info :=
  StockInfo (Raise (Exn (OtherException "ConnectionError") "connection refused"))
            (Ok ["AAPL"]) (Ok ["MSFT"]) (Ok ["SPY"]).

(** Dow is unreachable and [yahoo_fin] has no [tickers_etfs]. *)
Definition dow_down_no_etfs : stock_info :=
  StockInfo (Ok ["AAPL"; "BRK.B"])
            (Raise (Exn (OtherException "ConnectionError") "connection refused"))
            (Ok ["MSFT"])
            (Raise (Exn AttributeError "module has no attribute tickers_etfs")).

(** A listing in which one symbol carries the line end it was read with. *)
Definition listing_with_line_end : stock_info :=
  StockInfo (Ok ["AAPL"; String "A" (String newline ""); "aapl"]) (Ok []) (Ok []) (Ok []).

(** The design document's reading of discovery: whenever it returns, a
    valid ticker of any source that answered is in the universe. *)
Definition sources_independent : Prop :=
  forall si logs out t l,
    fetch_all_tickers si = (logs, Ok out) ->
    (tickers_sp500 si = Ok l \/ tickers_dow si = Ok l
     \/ tickers_nasdaq si = Ok l \/ tickers_etfs si = Ok l) ->
    t ∈ l -> valid_ticker t = true -> t ∈ out.

(** ** Data frames and the database *)

(** A cell of a price column as [yfinance] hands it over. *)
Inductive pyobj :=
| PyNumber (q : Q)
| PyStr (s : string)
| PyNone.

(** A [pandas.Timestamp] of the index: a date and a time of day. *)
Record timestamp := Timestamp { ts_date : date; ts_seconds : Z }.

(** One row of the frame [history] returns, after [reset_index]. *)
Record frame_row := FrameRow {
  f_Date : timestamp;
  f_Open : pyobj; f_High : pyobj; f_Low : pyobj; f_Close : pyobj; f_Volume : pyobj
}.

(** One stored row; [None] is SQL NULL (NaN in the frame). *)
Record db_row := Row {
  Date : option date;
  Open : option Q; High : option Q; Low : option Q; Close : option Q; Volume : option Q
}.

(** The type of a table's Date column decides what the driver returns. *)
Inductive column_type := DATE | DATETIME | TEXT.

Record table := Table { date_type : column_type; rows : list db_row }.

(** The database: table name to table. *)
Abbreviation database := (gmap string table).

(** The value of [connection.execute(query).scalar()]. *)
Inductive scalar :=
| SNone
| SDate (d : date)
| SDatetime (d : date) (seconds : Z)
| SStr (s : string).

(** SQL [MAX(Date)]: NULL rows do not count; NULL when no row counts. *)
Fixpoint max_date (rs : list db_row) : option date :=
  match rs with
  | [] => None
  | r :: rs' =>
      match Date r, max_date rs' with
      | Some d, Some m => Some (date_max d m)
      | Some d, None => Some d
      | None, m => m
      end
  end.

(** [SELECT MAX(Date) FROM `table_name`] as the driver delivers it. *)
Definition select_max_date (t : table) : scalar :=
  match max_date (rows t) with
  | None => SNone
  | Some d =>
      match date_type t with
      | DATE => SDate d
      | DATETIME => SDatetime d 0
      | TEXT => SStr (strftime d)
      end
  end.

(** [df.to_sql(table_name, con=engine, if_exists='append', index=False)]:
    the table is created on first write; a frame of dates makes a DATE
    column. *)
Definition to_sql (table_name : string) (new : list db_row) (db : database) : database :=
  match db !! table_name with
  | Some t => <[table_name := Table (date_type t) (rows t ++ new)]> db
  | None => <[table_name := Table DATE new]> db
  end.

(** ** [pandas.to_numeric] *)

Inductive errors_mode := errors_raise | errors_coerce.

(** One element: numbers stay, [None] becomes NaN, text is read as a
    number when [parse] can; text it cannot read raises under
    [errors='raise'] and becomes NaN under [errors='coerce']. *)
Definition to_numeric_cell (parse : string -> option Q) (errors : errors_mode)
    (x : pyobj) : result (option Q) :=
  match x with
  | PyNumber q => Ok (Some q)
  | PyNone => Ok None
  | PyStr s =>
      match parse s with
      | Some q => Ok (Some q)
      | None =>
          match errors with
          | errors_raise => Raise (Exn ValueError ("Unable to parse string " ++ s)%string)
          | errors_coerce => Ok None
          end
      end
  end.

Fixpoint to_numeric (parse : string -> option Q) (errors : errors_mode)
    (col : list pyobj) : result (list (option Q)) :=
  match col with
  | [] => Ok []
  | x :: col' =>
      bind (to_numeric_cell parse errors x) (fun v =>
      bind (to_numeric parse errors col') (fun vs => Ok (v :: vs)))
  end.

(** ** The world outside the process

    What the code asks of its collaborators during iteration [k] of the
    loop: the database connection, Yahoo Finance, and pandas' reading of
    numbers. *)
Record world := World {
  (* engine.connect(), has_table or execute raising *)
  db_read_error : nat -> option exn;
  (* yf.Ticker(ticker).history(start=start_date, auto_adjust=True) *)
  history : nat -> string -> string -> result (list frame_row);
  (* the texts pandas reads as numbers *)
  numeric_literal : string -> option Q;
  (* to_sql raising; the append is rolled back *)
  to_sql_error : nat -> option exn
}.

(** ** [fetch_historical_data] *)

Definition epoch_floor : string := "1950-01-01".

(** Line 97: [ticker.replace('.', '_').replace('-', '_')]. *)
Definition table_name_of (ticker : string) : string :=
  replace "-" "_" (replace "." "_" ticker).

(** Lines 105-112, for a result that [pd.notna] accepts: the date one day
    after the stored maximum, as text. *)
Definition next_start (r : scalar) : result string :=
  let last_date :=
    match r with
    | SStr s => strptime s
    | SDatetime d _ => Ok d
    | SDate d => Ok d
    | SNone => Raise (Exn TypeError "unsupported operand type(s) for +")
    end in
  bind last_date (fun d => bind (add_one_day d) (fun d' => Ok (strftime d'))).

(** Lines 98-113: the start of the fetch window. *)
Definition fetch_window (w : world) (k : nat) (ticker table_name : string)
    (db : database) : logged string :=
  match db_read_error w k with
  | Some e => ([], Raise e)
  | None =>
      match db !! table_name with
      | None => ([], Ok epoch_floor)
      | Some t =>
          match select_max_date t with
          | SNone => ([], Ok epoch_floor)
          | r =>
              match next_start r with
              | Ok start_date =>
                  ([Log DEBUG "[%s] Existing data found. Fetching new data from %s."
                      [Str ticker; Str start_date]], Ok start_date)
              | Raise e => ([], Raise e)
              end
          end
      end
  end.

Fixpoint build_rows (dates : list date) (o h l c v : list (option Q)) : list db_row :=
  match dates, o, h, l, c, v with
  | d :: dates', x1 :: o', x2 :: h', x3 :: l', x4 :: c', x5 :: v' =>
      Row (Some d) x1 x2 x3 x4 x5 :: build_rows dates' o' h' l' c' v'
  | _, _, _, _, _, _ => []
  end.

(** Lines 122-127: the Date column becomes plain dates, then each price
    column in turn goes through [pd.to_numeric] with its default
    [errors='raise']. *)
Definition normalize (w : world) (df_new : list frame_row) : result (list db_row) :=
  let dates := map (fun r => ts_date (f_Date r)) df_new in
  let conv := to_numeric (numeric_literal w) errors_raise in
  bind (conv (map f_Open df_new)) (fun o =>
  bind (conv (map f_High df_new)) (fun h =>
  bind (conv (map f_Low df_new)) (fun l =>
  bind (conv (map f_Close df_new)) (fun c =>
  bind (conv (map f_Volume df_new)) (fun v =>
  Ok (build_rows dates o h l c v)))))).

Definition no_new_data (ticker start_date : string) : log_record :=
  Log INFO "[%s] No new data available since %s." [Str ticker; Str start_date].
Definition saved (ticker : string) (n : nat) (table_name : string) : log_record :=
  Log INFO "[%s] Saved/Appended %d records to table `%s`."
    [Str ticker; Int (Z.of_nat n); Str table_name].
Definition failed (ticker : string) (e : exn) : log_record :=
  Log ERROR "[%s] Failed to process ticker: %s" [Str ticker; Str (exn_msg e)].

(** Lines 97-131: the body of the [try] statement for one ticker, in the
    database [db] it finds. *)
Definition try_body (w : world) (k : nat) (ticker : string) (db : database)
  : logged database :=
  let table_name := table_name_of ticker in
  match fetch_window w k ticker table_name db with
  | (l1, Raise e) => (l1, Raise e)
  | (l1, Ok start_date) =>
      match history w k ticker start_date with
      | Raise e => (l1, Raise e)
      | Ok [] => (l1 ++ [no_new_data ticker start_date], Ok db)
      | Ok df_new =>
          match normalize w df_new with
          | Raise e => (l1, Raise e)
          | Ok new_rows =>
              match to_sql_error w k with
              | Some e => (l1, Raise e)
              | None =>
                  (l1 ++ [saved ticker (length new_rows) table_name],
                   Ok (to_sql table_name new_rows db))
              end
          end
      end
  end.

(** Lines 96-134: the loop from iteration [k] on.  [except Exception]
    logs and goes on to the next ticker; any other exception leaves the
    loop and the function. *)
Fixpoint fetch_loop (w : world) (k : nat) (ticker_list : list string) (db : database)
  : database * list log_record * option exn :=
  match ticker_list with
  | [] => (db, [], None)
  | ticker :: rest =>
      match try_body w k ticker db with
      | (l, Ok db') =>
          let '(db'', l', x) := fetch_loop w (S k) rest db' in (db'', l ++ l', x)
      | (l, Raise e) =>
          if isinstance_Exception e
          then let '(db'', l', x) := fetch_loop w (S k) rest db in
               (db'', l ++ failed ticker e :: l', x)
          else (db, l, Some e)
      end
  end.

Definition fetch_historical_data (w : world) (ticker_list : list string) (db : database)
  : database * list log_record * option exn :=
  let '(db', l, x) := fetch_loop w 0 ticker_list db in
  (db', Log INFO "Starting historical data fetch for %d tickers..."
          [Int (Z.of_nat (length ticker_list))] :: l, x).

(** ** Observations on a run *)

(** The ticker a closing record of an iteration is about. *)
Definition outcome_ticker (r : log_record) : option string :=
  match log_level r, log_args r with
  | INFO, Str t :: _ => Some t
  | ERROR, Str t :: _ => Some t
  | _, _ => None
  end.

Definition attempted (logs : list log_record) : list string :=
  omap outcome_ticker logs.

(** The rows of a table, none when it does not exist. *)
Definition rows_of (db : database) (table_name : string) : list db_row :=
  match db !! table_name with
  | Some t => rows t
  | None => []
  end.

Definition stored_dates (db : database) (table_name : string) : list date :=
  omap Date (rows_of db table_name).

(** ** Conditions on the collaborators and on the stored data *)

Definition date_leb (a b : date) : bool := (date_key a <=? date_key b)%Z.

Definition row_date (r : frame_row) : date := ts_date (f_Date r).

(** The source honours the fetch window: the rows it returns are dated on
    or after the start it was asked for, one row per day, in order. *)
Definition honours_window (w : world) : Prop :=
  forall k ticker start s df,
    history w k ticker start = Ok df ->
    strptime start = Ok s ->
    Forall (fun r => date_le s (row_date r) /\ valid_date (row_date r) = true) df
    /\ StronglySorted date_lt (map row_date df).

(** Every table holds dates of the calendar, at most one row per date. *)
Definition dates_unique (db : database) : Prop :=
  forall table_name,
    NoDup (stored_dates db table_name)
    /\ Forall (fun d => valid_date d = true) (stored_dates db table_name).

(** [normalize] as the design document words it: a value that is not
    numeric becomes null, [errors='coerce']. *)
Definition normalize_coerce (w : world) (df_new : list frame_row) : result (list db_row) :=
  let dates := map (fun r => ts_date (f_Date r)) df_new in
  let conv := to_numeric (numeric_literal w) errors_coerce in
  bind (conv (map f_Open df_new)) (fun o =>
  bind (conv (map f_High df_new)) (fun h =>
  bind (conv (map f_Low df_new)) (fun l =>
  bind (conv (map f_Close df_new)) (fun c =>
  bind (conv (map f_Volume df_new)) (fun v =>
  Ok (build_rows dates o h l c v)))))).

(** ** Worlds for the scenarios *)

Fixpoint read_digits (s : string) (acc : Z) (n : nat) : Z * nat * string :=
  match s with
  | String c s' =>
      match digit_value c with
      | Some v => read_digits s' (10 * acc + v) (S n)
      | None => (acc, n, s)
      end
  | EmptyString => (acc, n, s)
  end.

(** Plain decimal literals, a part of what pandas reads as numbers. *)
Definition decimal_literal (s : string) : option Q :=
  let '(neg, body) :=
    match s with
    | String "-" r => (true, r)
    | _ => (false, s)
    end in
  let sign (z : Z) := if neg : bool then (- z)%Z else z in
  let '(i, ni, rest) := read_digits body 0 0 in
  if Nat.eqb ni 0 then None
  else match rest with
       | EmptyString => Some (Qmake (sign i) 1)
       | String "." fr =>
           let '(f, nf, rest') := read_digits fr 0 0 in
           if bool_decide (rest' = "")
           then Some (Qmake (sign (i * 10 ^ Z.of_nat nf + f)%Z) (Z.to_pos (10 ^ Z.of_nat nf)))
           else None
       | _ => None
       end.

(** A source that holds the rows [data ticker] and returns those dated on
    or after the requested start. *)
Definition history_of (data : string -> list frame_row) (ticker start : string)
  : result (list frame_row) :=
  bind (strptime start) (fun s =>
    Ok (filter (fun r => date_leb s (row_date r) = true) (data ticker))).

Definition world_of (data : string -> list frame_row) : world :=
  World (fun _ => None) (fun _ => history_of data) decimal_literal (fun _ => None).

Definition bar (d : date) (close : Q) : frame_row :=
  FrameRow (Timestamp d 0) (PyNumber close) (PyNumber close) (PyNumber close)
           (PyNumber close) (PyNumber (Qmake 1000 1)).

(** The scenario of the design document: three rows for AAPL. *)
Definition aapl_data (ticker : string) : list frame_row :=
  if bool_decide (ticker = "AAPL")
  then [bar (MkDate 2024 1 2) (Qmake 18564 100);
        bar (MkDate 2024 1 3) (Qmake 18425 100);
        bar (MkDate 2024 1 4) (Qmake 18191 100)]
  else [].

(** Two spellings of one share class, each with its own rows. *)
Definition brk_data (ticker : string) : list frame_row :=
  if bool_decide (ticker = "BRK-B")
  then [bar (MkDate 2024 1 2) (Qmake 36000 100); bar (MkDate 2024 1 3) (Qmake 36100 100)]
  else if bool_decide (ticker = "BRK.B")
  then [bar (MkDate 2024 1 3) (Qmake 99900 100); bar (MkDate 2024 1 4) (Qmake 99800 100)]
  else [].

(** The first fetch is interrupted from the keyboard. *)
Definition interrupted_world : world :=
  World (fun _ => None)
        (fun k ticker start =>
           if Nat.eqb k 0 then Raise (Exn KeyboardInterrupt "")
           else history_of aapl_data ticker start)
        decimal_literal (fun _ => None).

(** The first fetch fails with a network error. *)
Definition flaky_world : world :=
  World (fun _ => None)
        (fun k ticker start =>
           if Nat.eqb k 0 then Raise (Exn (OtherException "ConnectionError") "timed out")
           else history_of aapl_data ticker start)
        decimal_literal (fun _ => None).

(** A batch of two rows; the Open of the second is not a number. *)
Definition batch_with_text : list frame_row :=
  [bar (MkDate 2024 1 2) (Qmake 18564 100);
   FrameRow (Timestamp (MkDate 2024 1 3) 0) (PyStr "N/A") (PyNumber (Qmake 18425 100))
            (PyNumber (Qmake 18300 100)) (PyNumber (Qmake 18425 100))
            (PyNumber (Qmake 1000 1))].

Definition text_world : world :=
  World (fun _ => None) (fun _ _ _ => Ok batch_with_text) decimal_literal (fun _ => None).

(** The database after a first run for AAPL on an empty database. *)
Definition aapl_db : database :=
  fst (fst (fetch_historical_data (world_of aapl_data) ["AAPL"] ∅)).


End GetData.

Import App GetData.

(* ===================================================================== *)
(** * Further observations                                                *)
(* ===================================================================== *)

Module Obs.

(** ** Table names *)

Fixpoint forall_chars (P : ascii -> bool) (s : string) : bool :=
  match s with
  | EmptyString => true
  | String c s' => P c && forall_chars P s'
  end.

(** An upper-case letter or the underscore. *)
Definition table_char (c : ascii) : bool :=
  ((65 <=? code c) && (code c <=? 90))%N || bool_decide (c = "_"%char).

Definition separator (c : ascii) : bool :=
  bool_decide (c = "."%char) || bool_decide (c = "-"%char).

Definition no_newline (s : string) : bool :=
  forall_chars (fun c => negb (bool_decide (c = newline))) s.

(** ** Repeated runs *)

(** The rows a source holds for every ticker are in order of date, one
    row per day, and carry dates of the calendar. *)
Definition ordered_source (data : string -> list frame_row) : Prop :=
  forall t,
    StronglySorted date_lt (map row_date (data t))
    /\ Forall (fun r => valid_date (row_date r) = true) (data t).

(** Processing [t] in [db] stores nothing. *)
Definition settled (w : world) (t : string) (db : database) : Prop :=
  forall k l db', try_body w k t db = (l, Ok db') -> db' = db.

(** Two spellings of one share class; the first row of BRK-B cannot be
    read as numbers. *)
Definition brk_bad_data (ticker : string) : list frame_row :=
  if bool_decide (ticker = "BRK-B")
  then [FrameRow (Timestamp (MkDate 2024 1 2) 0) (PyStr "N/A") (PyStr "N/A")
                 (PyStr "N/A") (PyStr "N/A") (PyStr "N/A");
        bar (MkDate 2024 1 10) (Qmake 36500 100)]
  else if bool_decide (ticker = "BRK.B")
  then [bar (MkDate 2024 1 4) (Qmake 99800 100)]
  else [].

(** ** The coordinator *)





(** The thread has no statement left. *)
Definition terminal (t : thread) : bool :=
  match t with
  | Handler (H_returned _) => true
  | Worker _ (W_dead _) => true
  | _ => false
  end.


(** ** Header texts *)

Definition has_space (s : string) : bool := negb (forall_chars (fun c => negb (isspace c)) s).

Definition all_space (s : string) : bool := forall_chars isspace s.

(** ** A scenario: nothing runs, a request has passed the token check *)



End Obs.

Import Obs.

(* ===================================================================== *)
(** * get_data.py as a script                                             *)
(* ===================================================================== *)

Module Script.

(** The database server as the script meets it: whether
    [create_engine(DATABASE_URL)] raises and whether the test
    [engine.connect()] raises. *)
Record server := Server {
  create_engine : option exn;
  connect : option exn
}.

(** [get_db_engine]: the engine, or [None] after an [Exception] was
    logged.  (The texts logged by the script, Chinese in the source, are
    given in English.) *)
Definition get_db_engine (sv : server) : logged (option unit) :=
  let failed_with (e : exn) : logged (option unit) :=
    if isinstance_Exception e
    then ([Log ERROR "Cannot connect to the database: %s" [Str (exn_msg e)]], Ok None)
    else ([], Raise e) in
  match create_engine sv with
  | Some e => failed_with e
  | None =>
      match connect sv with
      | Some e => failed_with e
      | None => ([Log INFO "Database connection successful" []], Ok (Some tt))
      end
  end.

Definition TEST_MODE : bool := false.
Definition test_tickers : list string := ["AAPL"; "GOOGL"; "TSLA"; "BRK.B"].

(** The block under [if __name__ == "__main__":], after [setup_logging()]:
    the final database, the records logged, and the exception that ended
    the script, if one did. *)
Definition main (sv : server) (si : stock_info) (w : world) (db : database)
  : database * list log_record * option exn :=
  match get_db_engine sv with
  | (l0, Raise e) => (db, l0, Some e)
  | (l0, Ok None) =>
      (db, l0 ++ [Log ERROR "No database engine, the script ends" []], None)
  | (l0, Ok (Some _)) =>
      let '(l1, r) :=
        if TEST_MODE
        then ([Log INFO "--- test mode ---" []], Ok test_tickers)
        else let '(l, r) := fetch_all_tickers si in
             (Log INFO "--- full mode ---" [] :: l, r) in
      match r with
      | Raise e => (db, l0 ++ l1, Some e)
      | Ok [] =>
          (db, l0 ++ l1 ++ [Log WARNING "No ticker found, the script ends" []], None)
      | Ok tickers_to_fetch =>
          let '(db', l2, x) := fetch_historical_data w tickers_to_fetch db in
          match x with
          | Some e => (db', l0 ++ l1 ++ l2, Some e)
          | None =>
              (db', l0 ++ l1 ++ l2 ++ [Log INFO "Historical data fetch finished" []], None)
          end
      end
  end.

(** A server that answers. *)
Definition server_up : server := Server None None.

(** A server that refuses the test connection. *)
Definition server_down : server :=
  Server None (Some (Exn (OtherException "OperationalError") "connection refused")).

(** Every listing call fails; [yahoo_fin] has no [tickers_etfs]. *)
Definition all_listings_down : stock_info :=
  StockInfo (Raise (Exn (OtherException "ConnectionError") "connection refused"))
            (Ok ["AAPL"]) (Ok ["MSFT"])
            (Raise (Exn AttributeError "module has no attribute tickers_etfs")).

End Script.

Import Script.

(** * data_processing/process_data.py: cleaning the raw descriptive data *)

Module ProcessData.

Definition COLUMNS_TO_KEEP : list string :=
  [ "ticker"; "longName"; "shortName"; "quoteType"; "exchange";
    "sector"; "industry"; "country";
    "marketCap"; "enterpriseValue"; "trailingPE"; "forwardPE"; "trailingEps"; "forwardEps";
    "priceToSalesTrailing12Months"; "priceToBook"; "dividendYield"; "dividendRate";
    "payoutRatio"; "beta";
    "regularMarketPrice"; "fiftyTwoWeekHigh"; "fiftyTwoWeekLow"; "fiftyDayAverage";
    "twoHundredDayAverage"; "averageVolume"; "volume";
    "totalDebt"; "totalCash"; "quickRatio"; "currentRatio"; "debtToEquity";
    "totalRevenue"; "grossProfits"; "ebitda"; "netIncomeToCommon"; "revenueGrowth";
    "lastFiscalYearEnd"; "nextFiscalYearEnd"; "mostRecentQuarter"; "exDividendDate";
    "earningsTimestamp"; "fundInceptionDate";
    "longBusinessSummary" ].

(** Lines 84-87. *)
Definition date_columns : list string :=
  [ "lastFiscalYearEnd"; "nextFiscalYearEnd"; "mostRecentQuarter"; "exDividendDate";
    "earningsTimestamp"; "fundInceptionDate" ].

(** Lines 94-101. *)
Definition numeric_cols : list string :=
  [ "marketCap"; "enterpriseValue"; "trailingPE"; "forwardPE"; "trailingEps"; "forwardEps";
    "priceToSalesTrailing12Months"; "priceToBook"; "dividendYield"; "dividendRate";
    "payoutRatio"; "beta"; "regularMarketPrice"; "fiftyTwoWeekHigh"; "fiftyTwoWeekLow";
    "fiftyDayAverage"; "twoHundredDayAverage"; "averageVolume"; "volume"; "totalDebt";
    "totalCash"; "quickRatio"; "currentRatio"; "debtToEquity"; "totalRevenue";
    "grossProfits"; "ebitda"; "netIncomeToCommon"; "revenueGrowth" ].

(** A column of a frame: the cells as [read_csv] left them, a numeric
    column (NaN as [None]), or a column of [datetime.date] objects (NaT
    as [None]). *)
Inductive series :=
| Raw (l : list pyobj)
| Numeric (l : list (option Q))
| Dates (l : list (option date)).

Definition series_len (x : series) : nat :=
  match x with
  | Raw l => length l
  | Numeric l => length l
  | Dates l => length l
  end.

(** A [DataFrame]: the length of its index and its named columns, in
    order. *)
Record DataFrame := Frame { nrows : nat; data : list (string * series) }.

(** [df.columns]. *)
Definition columns (df : DataFrame) : list string := map fst (data df).

(** Every column is as long as the index. *)
Definition aligned (df : DataFrame) : Prop :=
  Forall (fun cx => series_len (snd cx) = nrows df) (data df).

(** [col in df.columns]. *)
Definition has_column (df : DataFrame) (col : string) : bool :=
  bool_decide (col ∈ columns df).

Fixpoint lookup_col (col : string) (l : list (string * series)) : option series :=
  match l with
  | [] => None
  | (c, x) :: l' => if bool_decide (c = col) then Some x else lookup_col col l'
  end.

(** [df[col]] for a column that [df] has. *)
Definition getitem (df : DataFrame) (col : string) : option series :=
  lookup_col col (data df).

Fixpoint select (l : list (string * series)) (names : list string)
  : result (list (string * series)) :=
  match names with
  | [] => Ok []
  | col :: names' =>
      match lookup_col col l with
      | None => Raise (Exn (OtherException "KeyError") col)
      | Some x => bind (select l names') (fun r => Ok ((col, x) :: r))
      end
  end.

(** [df[names]] for a list of names: the named columns in the order of
    the list, [KeyError] when one is not there. *)
Definition getitem_list (df : DataFrame) (names : list string) : result DataFrame :=
  bind (select (data df) names) (fun d => Ok (Frame (nrows df) d)).

Fixpoint set_col (col : string) (x : series) (l : list (string * series))
  : list (string * series) :=
  match l with
  | [] => [(col, x)]
  | (c, y) :: l' =>
      if bool_decide (c = col) then (c, x) :: l' else (c, y) :: set_col col x l'
  end.

(** [df[col] = x]: the column is replaced where it stands, or added
    last. *)
Definition setitem (df : DataFrame) (col : string) (x : series) : DataFrame :=
  Frame (nrows df) (set_col col x (data df)).

(** What the function meets outside: the file system and pandas. *)
Record files := Files {
  (* os.path.exists(source_path) *)
  path_exists : bool;
  (* pd.read_csv(source_path) *)
  read_csv : result DataFrame;
  (* pd.to_datetime(series, unit='s', errors='coerce').dt.date *)
  to_datetime : series -> list (option date);
  (* the texts pandas reads as numbers *)
  number_of_text : string -> option Q;
  (* df.to_csv(dest_path, index=False) raising *)
  to_csv_error : option exn
}.

(** [isinstance(e, pd.errors.ParserError)]. *)
Definition isinstance_ParserError (e : exn) : bool :=
  match exn_type e with
  | OtherException name => bool_decide (name = "ParserError")
  | _ => false
  end.

(** Lines 50-52. *)
Definition convert_timestamp_to_date (fs : files) (x : series) : series :=
  Dates (to_datetime fs x).

(** [pd.to_numeric(x, errors='coerce')]: a numeric column is returned as
    it is; in a column of objects, a date is no number and becomes NaN. *)
Definition to_numeric_series (fs : files) (x : series) : result series :=
  match x with
  | Raw l => bind (to_numeric (number_of_text fs) errors_coerce l) (fun v => Ok (Numeric v))
  | Numeric l => Ok (Numeric l)
  | Dates l => Ok (Numeric (map (fun _ => None) l))
  end.

(** Lines 88-90. *)
Fixpoint convert_dates (fs : files) (cols : list string) (df_cleaned : DataFrame)
  : DataFrame :=
  match cols with
  | [] => df_cleaned
  | col :: rest =>
      match getitem df_cleaned col with
      | Some x =>
          convert_dates fs rest (setitem df_cleaned col (convert_timestamp_to_date fs x))
      | None => convert_dates fs rest df_cleaned
      end
  end.

(** Lines 103-105. *)
Fixpoint convert_numeric (fs : files) (cols : list string) (df_cleaned : DataFrame)
  : result DataFrame :=
  match cols with
  | [] => Ok df_cleaned
  | col :: rest =>
      match getitem df_cleaned col with
      | Some x =>
          bind (to_numeric_series fs x) (fun v =>
            convert_numeric fs rest (setitem df_cleaned col v))
      | None => convert_numeric fs rest df_cleaned
      end
  end.

(** The text of a list of names inside an f-string: ['a', 'b']. *)
Fixpoint repr_items (l : list string) : string :=
  match l with
  | [] => ""
  | [x] => ("'" ++ x ++ "'")%string
  | x :: l' => ("'" ++ x ++ "', " ++ repr_items l')%string
  end.

Definition repr_list (l : list string) : string := ("[" ++ repr_items l ++ "]")%string.

(** [process_data(source_path, dest_path)], lines 55-112: the records
    logged (each f-string as its format and arguments), the frame written
    to [dest_path] if one was, and the exception that left the function,
    if one did.  The summary printed on the standard output afterwards
    (lines 114-117) is left out. *)
Definition process_data (fs : files) (source_path dest_path : string)
  : list log_record * option DataFrame * option exn :=
  if negb (path_exists fs)
  then ([Log ERROR "Source file not found: %s" [Str source_path]], None, None)
  else
    let l0 := [Log INFO "Loading raw data from %s..." [Str source_path]] in
    match read_csv fs with
    | Raise e =>
        if isinstance_ParserError e
        then (l0 ++ [Log ERROR "Failed to parse CSV file: %s" [Str (exn_msg e)]], None, None)
        else (l0, None, Some e)
    | Ok df =>
        let available_columns := filter (fun col => has_column df col = true) COLUMNS_TO_KEEP in
        let missing_columns := filter (fun col => has_column df col = false) COLUMNS_TO_KEEP in
        let l1 :=
          l0 ++ [Log INFO "Loaded %d rows and %d columns."
                   [Int (Z.of_nat (nrows df)); Int (Z.of_nat (length (columns df)))]]
             ++ match missing_columns with
                | [] => []
                | _ => [Log WARNING
                          "The following desired columns were not found in the source file: %s"
                          [Str (repr_list missing_columns)]]
                end
             ++ [Log INFO "Selecting %d available columns..."
                   [Int (Z.of_nat (length available_columns))]] in
        match getitem_list df available_columns with
        | Raise e => (l1, None, Some e)
        | Ok df_cleaned =>
            let l2 := l1 ++ [Log INFO "Converting timestamp columns to dates..." []] in
            let df_cleaned := convert_dates fs date_columns df_cleaned in
            let l3 := l2 ++ [Log INFO "Ensuring numerical columns are of a numeric type..." []] in
            match convert_numeric fs numeric_cols df_cleaned with
            | Raise e => (l3, None, Some e)
            | Ok df_cleaned =>
                match getitem_list df_cleaned available_columns with
                | Raise e => (l3, None, Some e)
                | Ok df_cleaned =>
                    let l4 :=
                      l3 ++ [Log INFO "Saving cleaned data with %d rows and %d columns to %s..."
                               [Int (Z.of_nat (nrows df_cleaned));
                                Int (Z.of_nat (length (columns df_cleaned)));
                                Str dest_path]] in
                    match to_csv_error fs with
                    | Some e => (l4, None, Some e)
                    | None =>
                        (l4 ++ [Log INFO "Data processing complete." []],
                         Some df_cleaned, None)
                    end
                end
            end
        end
    end.

(** ** What a cleaned column should hold *)

(** One cell under [errors='coerce']. *)
Definition coerce_cell (fs : files) (x : pyobj) : option Q :=
  match x with
  | PyNumber q => Some q
  | PyNone => None
  | PyStr s => number_of_text fs s
  end.

(** A column under [errors='coerce']. *)
Definition coerced (fs : files) (x : series) : series :=
  match x with
  | Raw l => Numeric (map (coerce_cell fs) l)
  | Numeric l => Numeric l
  | Dates l => Numeric (map (fun _ => None) l)
  end.

(** The column written under the name [col] for the source column [x]. *)
Definition cleaned (fs : files) (col : string) (x : series) : series :=
  if bool_decide (col ∈ date_columns) then Dates (to_datetime fs x)
  else if bool_decide (col ∈ numeric_cols) then coerced fs x
  else x.

(** A column changed by [conv] when its name is one of [cols]. *)
Definition on_columns (conv : series -> series) (cols : list string)
    (cx : string * series) : string * series :=
  (fst cx, if bool_decide (fst cx ∈ cols) then conv (snd cx) else snd cx).

(** ** A scenario: four columns, two rows *)

Definition raw_frame : DataFrame :=
  Frame 2 [ ("marketCap", Raw [PyStr "12.5"; PyStr "n/a"]);
            ("zip", Raw [PyStr "95014"; PyStr "98052"]);
            ("exDividendDate", Raw [PyNumber (Qmake 1700000000 1); PyNone]);
            ("ticker", Raw [PyStr "AAPL"; PyStr "MSFT"]) ].

(** The dates of the scenario's timestamps. *)
Definition to_datetime_table (x : series) : list (option date) :=
  let of_number (o : option Q) : option date :=
    match o with
    | Some q => if Qeq_bool q (Qmake 1700000000 1) then Some (MkDate 2023 11 14) else None
    | None => None
    end in
  match x with
  | Raw l => map (fun c => match c with PyNumber q => of_number (Some q) | _ => None end) l
  | Numeric l => map of_number l
  | Dates l => map (fun _ => None) l
  end.

Definition raw_files : files :=
  Files true (Ok raw_frame) to_datetime_table decimal_literal None.

(** The frame written for the scenario. *)
Definition raw_cleaned : DataFrame :=
  Frame 2 [ ("ticker", Raw [PyStr "AAPL"; PyStr "MSFT"]);
            ("marketCap", Numeric [Some (Qmake 125 10); None]);
            ("exDividendDate", Dates [Some (MkDate 2023 11 14); None]) ].


End ProcessData.

Import ProcessData.

(* ===================================================================== *)
(** * Properties of app.py                                                *)
(* ===================================================================== *)

(** ** The token check *)

Lemma split_empty : split "" = [].
Proof. reflexivity. Qed.

Lemma require_token_passed tok h :
  require_token tok h = Passed <-> credential_ok tok h.
Proof.
  unfold require_token, credential_ok. split.
  - destruct h as [h|]; [|discriminate].
    destruct h as [|c h']; [discriminate|].
    destruct (split (String c h')) as [|a [|b [|x l]]] eqn:Hs; try discriminate.
    destruct (bool_decide (lower a = "bearer")) eqn:Ha; [|discriminate].
    destruct (bool_decide (b = tok)) eqn:Hb; [|discriminate].
    intros _. apply bool_decide_eq_true in Ha, Hb.
    exists (String c h'), a, b. auto.
  - intros (x & a & b & -> & Hs & Ha & Hb).
    destruct x as [|c x']; [rewrite split_empty in Hs; discriminate|].
    rewrite Hs. rewrite (bool_decide_eq_true_2 _ Ha), (bool_decide_eq_true_2 _ Hb).
    reflexivity.
Qed.

Lemma require_token_rejected tok h l r :
  require_token tok h = Rejected l r -> status r = 401%Z.
Proof.
  unfold require_token.
  destruct h as [h|]; [|intros [= <- <-]; reflexivity].
  destruct h as [|c h']; [intros [= <- <-]; reflexivity|].
  destruct (split (String c h')) as [|a [|b [|x l']]];
    try (intros [= <- <-]; reflexivity).
  destruct (_ || _); [intros [= <- <-]; reflexivity | discriminate].
Qed.

(** ** Counting threads *)

Lemma count_nil P : count P [] = 0.
Proof. reflexivity. Qed.

Lemma count_cons P t l : count P (t :: l) = Nat.b2n (P t) + count P l.
Proof.
  unfold count. rewrite filter_cons.
  destruct (decide (P t = true)) as [H|H].
  - rewrite H. reflexivity.
  - destruct (P t); [congruence | reflexivity].
Qed.

Lemma count_snoc P l t : count P (l ++ [t]) = count P l + Nat.b2n (P t).
Proof.
  induction l as [|x l IH]; simpl.
  - rewrite count_cons, count_nil. lia.
  - rewrite !count_cons, IH. lia.
Qed.

Lemma count_set P (l : list thread) i x y :
  l !! i = Some x ->
  count P (<[i:=y]> l) + Nat.b2n (P x) = count P l + Nat.b2n (P y).
Proof.
  revert i. induction l as [|t l IH]; intros [|i] H; simpl in *; try discriminate.
  - injection H as ->. rewrite !count_cons. lia.
  - rewrite !count_cons. specialize (IH i H). lia.
Qed.

Lemma count_set_snoc P (l : list thread) i x y t :
  l !! i = Some x ->
  count P (<[i:=y]> (l ++ [t])) + Nat.b2n (P x)
  = count P l + Nat.b2n (P y) + Nat.b2n (P t).
Proof.
  intros H.
  assert (Hl : (l ++ [t]) !! i = Some x).
  { rewrite lookup_app_l; [assumption | eapply lookup_lt_Some; eassumption]. }
  pose proof (count_set P _ _ _ y Hl) as Hc. rewrite count_snoc in Hc. lia.
Qed.


Lemma count_le P Q (l : list thread) :
  (forall t, P t = true -> Q t = true) -> count P l <= count Q l.
Proof.
  intros H. induction l as [|t l IH].
  - rewrite !count_nil. lia.
  - rewrite !count_cons. specialize (H t).
    destruct (P t); [rewrite H by reflexivity|]; simpl; lia.
Qed.

Lemma count_pos P (l : list thread) i t :
  l !! i = Some t -> P t = true -> 1 <= count P l.
Proof.
  revert i. induction l as [|x l IH]; intros [|i] H Hp; simpl in *; try discriminate.
  - injection H as ->. rewrite count_cons, Hp. simpl. lia.
  - rewrite count_cons. specialize (IH i H Hp). lia.
Qed.


Lemma count_witness P (l : list thread) :
  1 <= count P l -> exists i t, l !! i = Some t /\ P t = true.
Proof.
  induction l as [|x l IH]; [rewrite count_nil; lia|].
  rewrite count_cons. destruct (P x) eqn:Hx.
  - intros _. exists 0, x. auto.
  - simpl. intros H. destruct (IH H) as (i & t & Hi & Ht).
    exists (S i), t. auto.
Qed.

Lemma writes_snoc i b tr x :
  writes i b (tr ++ [x]) = writes i b tr + Nat.b2n (is_write i b x).
Proof.
  unfold writes. rewrite filter_app, length_app. f_equal.
  rewrite filter_cons, filter_nil.
  destruct (decide (is_write i b x = true)) as [H|H].
  - rewrite H. reflexivity.
  - destruct (is_write i b x); [congruence | reflexivity].
Qed.

(** ** The invariant of the coordinator *)

Lemma lookup_snoc_old (l : list thread) t j u :
  (l ++ [t]) !! j = Some u -> j < length l -> l !! j = Some u.
Proof. intros H Hlt. rewrite lookup_app_l in H; assumption. Qed.

Lemma lookup_snoc_keep (l : list thread) t j u :
  l !! j = Some u -> (l ++ [t]) !! j = Some u.
Proof.
  intros H. rewrite lookup_app_l; [assumption | eapply lookup_lt_Some; eassumption].
Qed.

Lemma lookup_snoc_inv (l : list thread) t j u :
  (l ++ [t]) !! j = Some u -> l !! j = Some u \/ (j = length l /\ u = t).
Proof.
  intros H. destruct (decide (j < length l)) as [Hlt|Hge].
  - left. rewrite lookup_app_l in H; assumption.
  - right. rewrite lookup_app_r in H by lia.
    destruct (j - length l) as [|n] eqn:Hn; simpl in H; [|discriminate].
    injection H as <-. split; [lia | reflexivity].
Qed.

Lemma parents_snoc_handler l pc :
  parents_ok l -> parents_ok (l ++ [Handler pc]).
Proof.
  intros Hp j p wpc H.
  apply lookup_snoc_inv in H as [H | [_ H]]; [|discriminate].
  destruct (Hp _ _ _ H) as [Hq|Hq]; [left|right]; apply lookup_snoc_keep; assumption.
Qed.

Lemma parents_set l i x y :
  l !! i = Some x ->
  (forall p pc, y = Worker p pc -> exists pc', x = Worker p pc') ->
  (x = Handler H_accepted -> y = Handler (H_returned accepted)) ->
  x <> Handler (H_returned accepted) ->
  parents_ok l -> parents_ok (<[i:=y]> l).
Proof.
  intros Hi Hw Ha Hr Hp j p pc Hj.
  pose proof (lookup_lt_Some _ _ _ Hi) as Hlen.
  assert (Hold : exists pc', l !! j = Some (Worker p pc')).
  { destruct (decide (j = i)) as [->|Hne].
    - rewrite list_lookup_insert_eq in Hj by assumption. injection Hj as ->.
      destruct (Hw _ _ eq_refl) as [pc' ->]. eauto.
    - rewrite list_lookup_insert_ne in Hj by congruence. eauto. }
  destruct Hold as [pc' Hold].
  destruct (decide (p = i)) as [->|Hne].
  - rewrite list_lookup_insert_eq by assumption.
    destruct (Hp _ _ _ Hold) as [Hq|Hq]; rewrite Hi in Hq; injection Hq as ->.
    + right. rewrite Ha; reflexivity.
    + congruence.
  - rewrite !list_lookup_insert_ne by congruence. eapply Hp; eassumption.
Qed.

Lemma parents_start l i :
  l !! i = Some (Handler H_start) ->
  parents_ok l ->
  parents_ok (<[i:=Handler H_accepted]> (l ++ [Worker i W_begin])).
Proof.
  intros Hi Hp j p pc Hj.
  pose proof (lookup_lt_Some _ _ _ Hi) as Hlen.
  assert (Hlen' : i < length (l ++ [Worker i W_begin])) by (rewrite length_app; simpl; lia).
  destruct (decide (j = i)) as [->|Hne].
  { rewrite list_lookup_insert_eq in Hj by assumption. discriminate. }
  rewrite list_lookup_insert_ne in Hj by congruence.
  apply lookup_snoc_inv in Hj as [Hj | [_ Hj]].
  - destruct (decide (p = i)) as [->|Hnp].
    + destruct (Hp _ _ _ Hj) as [Hq|Hq]; rewrite Hi in Hq; discriminate.
    + rewrite !list_lookup_insert_ne by congruence.
      destruct (Hp _ _ _ Hj) as [Hq|Hq]; [left|right]; apply lookup_snoc_keep; assumption.
  - injection Hj as -> _. left. apply list_lookup_insert_eq. assumption.
Qed.

Lemma writes_snoc_thread tr l t :
  reset_done t = false -> writes_ok tr l -> writes_ok tr (l ++ [t]).
Proof.
  intros Ht Hw i. rewrite Hw.
  destruct (l !! i) as [u|] eqn:Hi.
  - rewrite (lookup_snoc_keep _ _ _ _ Hi). reflexivity.
  - apply lookup_ge_None in Hi. rewrite lookup_app_r by lia.
    destruct (i - length l); simpl; [rewrite Ht|]; reflexivity.
Qed.

Lemma writes_set tr l i x y :
  l !! i = Some x -> reset_done y = reset_done x ->
  writes_ok tr l -> writes_ok tr (<[i:=y]> l).
Proof.
  intros Hi Hxy Hw k. rewrite Hw.
  pose proof (lookup_lt_Some _ _ _ Hi) as Hlen.
  destruct (decide (k = i)) as [->|Hne].
  - rewrite list_lookup_insert_eq by assumption. rewrite Hi, Hxy. reflexivity.
  - rewrite list_lookup_insert_ne by congruence. reflexivity.
Qed.

Lemma writes_emit tr l i ev :
  (forall k, is_write k false (i, ev) = false) ->
  writes_ok tr l -> writes_ok (tr ++ [(i, ev)]) l.
Proof.
  intros He Hw k. rewrite writes_snoc, He, Hw. simpl. lia.
Qed.

Lemma writes_reset tr l i x y :
  l !! i = Some x -> reset_done x = false -> reset_done y = true ->
  writes_ok tr l -> writes_ok (tr ++ [(i, EvSetRunning false)]) (<[i:=y]> l).
Proof.
  intros Hi Hx Hy Hw k. rewrite writes_snoc, Hw.
  pose proof (lookup_lt_Some _ _ _ Hi) as Hlen.
  destruct (decide (k = i)) as [->|Hne].
  - rewrite list_lookup_insert_eq by assumption. rewrite Hi, Hx, Hy. simpl.
    rewrite !bool_decide_eq_true_2 by reflexivity. reflexivity.
  - rewrite list_lookup_insert_ne by congruence. simpl.
    rewrite (bool_decide_eq_false_2 (i = k)) by congruence. simpl. lia.
Qed.

Lemma pre_write_in_lock t : pre_write t = true -> in_lock t = true.
Proof. destruct t as [[]|? []]; simpl; congruence. Qed.

Lemma inv_init : Inv init.
Proof.
  split; simpl; try reflexivity; try discriminate.
  intros i. reflexivity.
Qed.

Lemma inv_arrive h s : Inv s -> Inv (arrive h s).
Proof.
  intros [I1 I2 I3 I4 I5]. split; simpl.
  - rewrite count_snoc. simpl. lia.
  - rewrite count_snoc. simpl. lia.
  - intros H. rewrite count_snoc. simpl. specialize (I3 H). lia.
  - apply parents_snoc_handler. assumption.
  - apply writes_snoc_thread; [reflexivity | assumption].
Qed.

Ltac count_facts Hlk :=
  repeat match goal with
  | |- context [count ?P (<[?i:=?y]> (?l ++ [?t]))] =>
      let H := fresh "Hc" in
      pose proof (count_set_snoc P l i _ y t Hlk) as H; simpl in H;
      generalize dependent (count P (<[i:=y]> (l ++ [t]))); intros
  | |- context [count ?P (<[?i:=?y]> ?l)] =>
      let H := fresh "Hc" in
      pose proof (count_set P l i _ y Hlk) as H; simpl in H;
      generalize dependent (count P (<[i:=y]> l)); intros
  end.

Ltac solve_counts s I3 Hlk :=
  try (pose proof (count_pos pre_write _ _ _ Hlk eq_refl));
  try (let Hr := fresh "Hr" in intros Hr; try rewrite Hr in * );
  count_facts Hlk;
  destruct (task_lock s) eqn:?, (task_running s) eqn:?; simpl in *;
  try specialize (I3 eq_refl); try discriminate; lia.

Ltac solve_parents Hlk :=
  first
    [ apply parents_start; assumption
    | eapply parents_set;
      [ exact Hlk
      | intros ? ? [=]; subst; eauto
      | intros [=]; subst; reflexivity
      | discriminate
      | assumption ] ].

Ltac solve_writes Hlk :=
  repeat (apply writes_emit;
          [ intros ?; simpl; try apply andb_false_r; reflexivity | ]);
  first
    [ eapply writes_set; [exact Hlk | reflexivity | assumption]
    | eapply writes_reset; [exact Hlk | reflexivity | reflexivity | assumption]
    | eapply writes_set;
      [ apply lookup_snoc_keep; exact Hlk | reflexivity
      | apply writes_snoc_thread; [reflexivity | assumption] ] ].

(** Case analysis on the statement thread [i] executes in step [H]. *)
Ltac step_cases H Hlk :=
  unfold step_thread in H;
  match type of H with
  | context [threads ?s !! ?i] =>
      let pc := fresh "pc" in
      let parent := fresh "parent" in
      destruct (threads s !! i) as [[pc | parent pc]|] eqn:Hlk;
      [destruct pc | destruct pc | discriminate]
  end;
  simpl in H;
  repeat match type of H with
         | context [match ?c with _ => _ end] => destruct c eqn:?
         end;
  try discriminate; injection H as <-.

Lemma inv_step_thread tok i o s s' :
  Inv s -> step_thread tok i o s = Some s' -> Inv s'.
Proof.
  intros [I1 I2 I3 I4 I5] H.
  pose proof (count_le pre_write in_lock (threads s) pre_write_in_lock) as Hpl.
  step_cases H Hlk; split; simpl;
    first [ solve_parents Hlk | solve_writes Hlk | solve_counts s I3 Hlk ].
Qed.

Lemma inv_step tok s s' : Inv s -> step tok s s' -> Inv s'.
Proof.
  intros HI [[h | i o] H]; simpl in H.
  - injection H as <-. apply inv_arrive. assumption.
  - eapply inv_step_thread; eassumption.
Qed.

Lemma inv_rtc tok s s' : Inv s -> rtc (step tok) s s' -> Inv s'.
Proof.
  intros HI Hr. induction Hr as [|x y z Hxy _ IH]; [assumption|].
  apply IH. eapply inv_step; eassumption.
Qed.

Lemma inv_reachable tok s : reachable tok s -> Inv s.
Proof. apply inv_rtc, inv_init. Qed.

Lemma run_rtc tok sched s s' :
  run tok sched s = Some s' -> rtc (step tok) s s'.
Proof.
  revert s. induction sched as [|a sched IH]; intros s H; simpl in H.
  - injection H as <-. apply rtc_refl.
  - destruct (perform tok a s) as [s1|] eqn:Hp; [|discriminate].
    eapply rtc_l; [exists a; eassumption | apply IH; assumption].
Qed.

Lemma run_reachable tok sched s s' :
  reachable tok s -> run tok sched s = Some s' -> reachable tok s'.
Proof.
  intros Hs H. unfold reachable. etrans; [exact Hs | eapply run_rtc; eassumption].
Qed.










Lemma busy_state_reachable : reachable demo_token busy_state.
Proof.
  eapply (run_reachable _ busy_schedule init); [apply rtc_refl | vm_compute; reflexivity].
Qed.

(** C9 (authentication frame).  A request whose Authorization header
    does not carry the right credential, because it is missing, does not
    split into exactly a scheme and a token, or names another scheme or
    another token, is answered 401 by its first step; the flag and the
    lock keep the values they had, whatever they were, no thread is
    started, no other thread is touched, and the handler never moves
    again, so it never enters [webhook_trigger]. *)
Theorem auth_frame tok h s i o :
  ~ credential_ok tok h ->
  threads s !! i = Some (Handler (H_entry h)) ->
  exists s' r,
    step_thread tok i o s = Some s'
    /\ response_of s' i = Some r /\ status r = 401%Z
    /\ task_running s' = task_running s
    /\ task_lock s' = task_lock s
    /\ length (threads s') = length (threads s)
    /\ count live_worker (threads s') = count live_worker (threads s)
    /\ (forall j, j <> i -> threads s' !! j = threads s !! j)
    /\ (forall o', step_thread tok i o' s' = None).
Proof.
  intros Hbad Hi.
  pose proof (lookup_lt_Some _ _ _ Hi) as Hlen.
  destruct (require_token tok h) as [l r|] eqn:Hrt.
  2: { exfalso. apply Hbad. apply require_token_passed. assumption. }
  eexists _, r. unfold step_thread. rewrite Hi. simpl. rewrite Hrt.
  split; [reflexivity|]. simpl.
  assert (Hnew : <[i:=Handler (H_returned r)]> (threads s) !! i
                 = Some (Handler (H_returned r)))
    by (apply list_lookup_insert_eq; assumption).
  repeat split.
  - unfold response_of. simpl. rewrite Hnew. reflexivity.
  - eapply require_token_rejected; eassumption.
  - apply length_insert.
  - pose proof (count_set live_worker _ _ _ (Handler (H_returned r)) Hi) as Hc.
    simpl in Hc. lia.
  - intros j Hne. apply list_lookup_insert_ne. congruence.
  - intros o'. simpl. rewrite Hnew. reflexivity.
Qed.

Lemma auth_frame_witness :
  exists s' r,
    step_thread demo_token 3 (Ok tt) (arrive (Some "Bearer guess") busy_state) = Some s'
    /\ response_of s' 3 = Some r /\ status r = 401%Z
    /\ task_running s' = task_running (arrive (Some "Bearer guess") busy_state)
    /\ task_lock s' = task_lock (arrive (Some "Bearer guess") busy_state)
    /\ length (threads s') = length (threads (arrive (Some "Bearer guess") busy_state))
    /\ count live_worker (threads s')
       = count live_worker (threads (arrive (Some "Bearer guess") busy_state))
    /\ (forall j, j <> 3 ->
        threads s' !! j = threads (arrive (Some "Bearer guess") busy_state) !! j)
    /\ (forall o', step_thread demo_token 3 o' s' = None).
Proof.
  apply (auth_frame demo_token (Some "Bearer guess")).
  - intros (h & a & b & Hh & Hs & Ha & Hb). injection Hh as <-.
    vm_compute in Hs. injection Hs as <- <-. discriminate Hb.
  - vm_compute. reflexivity.
Defined.



(** The scenario of the design document: two triggers within one run,
    then a third after the run has finished. *)
Example trigger_twice_then_again :
  let credential := Some "Bearer default-secret-token" in
  match run demo_token
          (busy_schedule
           ++ [Run 2 (Ok tt); Run 2 (Ok tt); Run 2 (Ok tt);
               Run 1 (Ok tt); Run 1 (Ok tt); Run 1 (Ok tt); Run 1 (Ok tt); Run 1 (Ok tt);
               Arrive credential;
               Run 3 (Ok tt); Run 3 (Ok tt); Run 3 (Ok tt); Run 3 (Ok tt);
               Run 3 (Ok tt); Run 3 (Ok tt); Run 3 (Ok tt)]) init with
  | Some s =>
      (response_of s 0, response_of s 2, response_of s 3)
      = (Some accepted, Some already_running, Some accepted)
      /\ count live_worker (threads s) = 1
  | None => False
  end.
Proof. vm_compute. split; reflexivity. Qed.

(** ** The worker always gets to its reset *)








(** The worker of the scenario when [run_data_collection()] is
    interrupted: the exception is not caught, the flag is reset all the
    same, and the next request is accepted. *)
Example interrupted_run_resets :
  match run demo_token
          (busy_schedule
           ++ [Run 1 (Raise (Exn KeyboardInterrupt ""));
               Run 2 (Ok tt); Run 2 (Ok tt); Run 2 (Ok tt);
               Run 1 (Ok tt); Run 1 (Ok tt); Run 1 (Ok tt)]) init with
  | Some s =>
      threads s !! 1 = Some (Worker 0 (W_dead (Some (Exn KeyboardInterrupt ""))))
      /\ task_running s = false /\ task_lock s = false
      /\ writes 1 false (trace s) = 1
  | None => False
  end.
Proof. vm_compute. repeat split; reflexivity. Qed.

(* ===================================================================== *)
(** * Properties of get_data.py: discovery                                *)
(* ===================================================================== *)

(** ** What the ticker pattern accepts *)

Lemma in_set_safe c : in_set ticker_set c = safe_char c.
Proof.
  unfold in_set, ticker_set, safe_char, existsb.
  rewrite orb_false_r, orb_assoc. reflexivity.
Qed.

Lemma safe_not_newline c : safe_char c = true -> c <> newline.
Proof. intros H ->. vm_compute in H. discriminate. Qed.

Lemma at_end_spec pos s :
  sre_match [AT_END] pos s = bool_decide (s = "") || bool_decide (s = String newline "").
Proof. simpl. apply andb_true_r. Qed.

Lemma max_repeat_ticker s : forall n pos,
  max_repeat ticker_set 1 (sre_match [AT_END]) n pos s
  = all_safe (strip_final_newline s)
    && Nat.leb 1 (n + String.length (strip_final_newline s)).
Proof.
  induction s as [|c s IH]; intros n pos.
  - cbn [max_repeat strip_final_newline all_safe String.length].
    rewrite at_end_spec, Nat.add_0_r. cbn [andb]. apply andb_true_r.
  - cbn [max_repeat]. rewrite in_set_safe, at_end_spec.
    rewrite (bool_decide_eq_false_2 (String c s = "")) by discriminate. cbn [orb].
    destruct (safe_char c) eqn:Hc.
    + pose proof (safe_not_newline _ Hc) as Hn.
      rewrite IH.
      assert (Hstrip : strip_final_newline (String c s) = String c (strip_final_newline s)).
      { destruct s; cbn [strip_final_newline];
          [rewrite bool_decide_eq_false_2 by assumption|]; reflexivity. }
      rewrite Hstrip. cbn [all_safe String.length]. rewrite Hc. cbn [andb].
      rewrite (bool_decide_eq_false_2 (String c s = String newline "")) by congruence.
      rewrite andb_false_r, orb_false_r, Nat.add_succ_r. reflexivity.
    + destruct s as [|d s'].
      * cbn [strip_final_newline]. destruct (bool_decide (c = newline)) eqn:Hcn.
        -- apply bool_decide_eq_true in Hcn as ->.
           rewrite bool_decide_eq_true_2 by reflexivity.
           cbn [all_safe String.length andb]. rewrite Nat.add_0_r. apply andb_true_r.
        -- apply bool_decide_eq_false in Hcn.
           rewrite bool_decide_eq_false_2 by congruence.
           cbn [all_safe]. rewrite Hc. cbn [andb]. apply andb_false_r.
      * cbn [strip_final_newline all_safe]. rewrite Hc. cbn [andb].
        rewrite bool_decide_eq_false_2 by congruence. apply andb_false_r.
Qed.

Lemma search_from_later s :
  forall pos, pos <> 0 -> search_from ticker_pattern pos s = false.
Proof.
  induction s as [|c s IH]; intros pos Hpos; cbn [search_from sre_match ticker_pattern].
  - destruct pos; [congruence|]. reflexivity.
  - rewrite IH by lia. destruct pos; [congruence|]. reflexivity.
Qed.

(** The filter keeps the safe names of at most 64 characters, and also a
    safe name followed by one newline. *)
Lemma valid_ticker_spec t :
  valid_ticker t = safe_name (strip_final_newline t) && Nat.leb (len t) 64.
Proof.
  unfold valid_ticker, re_search. f_equal.
  assert (Hm : sre_match ticker_pattern 0 t = safe_name (strip_final_newline t)).
  { unfold ticker_pattern. cbn [sre_match Nat.eqb andb].
    rewrite max_repeat_ticker. unfold safe_name.
    destruct (strip_final_newline t); cbn [all_safe String.length Nat.add Nat.leb];
      [rewrite bool_decide_eq_true_2 by reflexivity
      |rewrite bool_decide_eq_false_2 by discriminate]; cbn [negb andb];
      [reflexivity | apply andb_true_r]. }
  destruct t as [|c t']; cbn [search_from]; rewrite Hm.
  - reflexivity.
  - rewrite search_from_later by lia. apply orb_false_r.
Qed.

(** ** The resolved universe *)

Lemma StronglySorted_filter {A} (R : relation A) (P : A -> Prop)
    `{forall x, Decision (P x)} (l : list A) :
  StronglySorted R l -> StronglySorted R (filter P l).
Proof.
  induction 1 as [|x l Hs IH Hx]; [constructor|].
  rewrite filter_cons. destruct (decide (P x)); [|assumption].
  constructor; [assumption|].
  apply Forall_forall. intros y Hy. apply list_elem_of_filter in Hy as [_ Hy].
  rewrite Forall_forall in Hx. apply Hx. assumption.
Qed.

Lemma fetch_all_tickers_returns si logs out :
  fetch_all_tickers si = (logs, Ok out) ->
  out = filter (fun t => valid_ticker t = true) (sorted_set (collected si)).
Proof.
  unfold fetch_all_tickers, collected.
  destruct (index_block si) as [tickers [e|]]; simpl;
    [destruct (isinstance_Exception e); [|discriminate]|];
    (destruct (tickers_etfs si) as [l4|e4];
     [ intros [= _ <-]; reflexivity
     | rewrite app_nil_r;
       destruct (isinstance_AttributeError e4); [intros [= _ <-]; reflexivity|];
       destruct (isinstance_Exception e4); [intros [= _ <-]; reflexivity | discriminate] ]).
Qed.

(** What does hold of the universe: it is sorted, has no duplicates, and
    holds exactly the gathered candidates that pass the filter. *)
Lemma universe_sorted_unique si logs out :
  fetch_all_tickers si = (logs, Ok out) ->
  StronglySorted String.le out /\ NoDup out
  /\ (forall t, t ∈ out <-> t ∈ collected si /\ valid_ticker t = true)
  /\ (forall t, t ∈ out ->
        len t <= 64 /\ safe_name (strip_final_newline t) = true).
Proof.
  intros H. apply fetch_all_tickers_returns in H as ->. unfold sorted_set.
  split; [|split; [|split]].
  - apply StronglySorted_filter, StronglySorted_merge_sort; apply _.
  - apply NoDup_filter. rewrite merge_sort_Permutation. apply NoDup_remove_dups.
  - intros t. rewrite list_elem_of_filter, merge_sort_Permutation, elem_of_remove_dups.
    tauto.
  - intros t Ht. apply list_elem_of_filter in Ht as [Hv _].
    rewrite valid_ticker_spec in Hv. apply andb_true_iff in Hv as [Hs Hl].
    split; [apply Nat.leb_le; assumption | assumption].
Qed.

(** C8 (universe validity).  A candidate made of a safe name and one
    final newline passes the filter: [$] also matches just before a newline
    that ends the text.  The listing below yields a universe that contains
    "A\n", which is not a safe name, next to "AAPL". *)
Theorem universe_admits_final_newline :
  snd (fetch_all_tickers listing_with_line_end)
  = Ok [String "A" (String newline ""); "AAPL"]
  /\ valid_ticker (String "A" (String newline "")) = true
  /\ safe_name (String "A" (String newline "")) = false.
Proof. vm_compute. repeat split; reflexivity. Qed.

(** Against C6 as stated: with S&P 500 unreachable the Dow and NASDAQ
    calls are never made, and the universe is the ETF listing alone. *)
Lemma sp500_failure_skips_dow_and_nasdaq :
  snd (fetch_all_tickers sp500_down) = Ok ["SPY"]
  /\ tickers_dow sp500_down = Ok ["AAPL"]
  /\ valid_ticker "AAPL" = true
  /\ ~ sources_independent.
Proof.
  assert (Hrun : fetch_all_tickers sp500_down
                 = (fst (fetch_all_tickers sp500_down), Ok ["SPY"]))
    by (vm_compute; reflexivity).
  split; [vm_compute; reflexivity|]. split; [reflexivity|].
  split; [vm_compute; reflexivity|].
  intros Hind.
  specialize (Hind sp500_down _ _ "AAPL" ["AAPL"] Hrun).
  assert (Hin : "AAPL" ∈ ["SPY"]).
  { apply Hind; [right; left; reflexivity | apply list_elem_of_here | vm_compute; reflexivity]. }
  apply list_elem_of_singleton in Hin. discriminate.
Qed.

Lemma collected_kept si logs out t :
  fetch_all_tickers si = (logs, Ok out) ->
  t ∈ collected si -> valid_ticker t = true -> t ∈ out.
Proof.
  intros H Hin Hv.
  destruct (universe_sorted_unique _ _ _ H) as (_ & _ & Hiff & _).
  apply Hiff. auto.
Qed.

(** C6, amended (discovery goes on after a failure).  When the exception
    a listing call raises is an [Exception], discovery returns a universe
    and logs the failure.  The ETF listing is consulted whatever happened
    to the index listings, and whatever the calls before a failure
    returned is kept.  S&P 500, Dow and NASDAQ share one [try] block:
    each is collected when the ones before it answered. *)
Theorem discovery_goes_on si :
  (forall e, snd (index_block si) = Some e -> isinstance_Exception e = true) ->
  (forall e, tickers_etfs si = Raise e -> isinstance_Exception e = true) ->
  exists logs out,
    fetch_all_tickers si = (logs, Ok out)
    /\ (forall t, t ∈ out <-> t ∈ collected si /\ valid_ticker t = true)
    /\ (forall l4 t, tickers_etfs si = Ok l4 ->
          t ∈ l4 -> valid_ticker t = true -> t ∈ out)
    /\ (forall l1 t, tickers_sp500 si = Ok l1 ->
          t ∈ l1 -> valid_ticker t = true -> t ∈ out)
    /\ (forall l1 l2 t, tickers_sp500 si = Ok l1 -> tickers_dow si = Ok l2 ->
          t ∈ l2 -> valid_ticker t = true -> t ∈ out)
    /\ (forall l1 l2 l3 t, tickers_sp500 si = Ok l1 -> tickers_dow si = Ok l2 ->
          tickers_nasdaq si = Ok l3 ->
          t ∈ l3 -> valid_ticker t = true -> t ∈ out)
    /\ (forall e, snd (index_block si) = Some e ->
          Log ERROR "Failed to fetch tickers for S&P 500, Dow, or NASDAQ: %s"
            [Str (exn_msg e)] ∈ logs)
    /\ (forall e, tickers_etfs si = Raise e ->
          Log WARNING "si.tickers_etfs() is unavailable or deprecated, skipping ETFs." [] ∈ logs
          \/ Log ERROR "Failed to fetch ETF tickers: %s" [Str (exn_msg e)] ∈ logs).
Proof.
  intros Hidx Hetf.
  assert (Hret : exists logs out,
             fetch_all_tickers si = (logs, Ok out)
             /\ (forall e, snd (index_block si) = Some e ->
                   Log ERROR "Failed to fetch tickers for S&P 500, Dow, or NASDAQ: %s"
                     [Str (exn_msg e)] ∈ logs)
             /\ (forall e, tickers_etfs si = Raise e ->
                   Log WARNING "si.tickers_etfs() is unavailable or deprecated, skipping ETFs." [] ∈ logs
                   \/ Log ERROR "Failed to fetch ETF tickers: %s" [Str (exn_msg e)] ∈ logs)).
  { unfold fetch_all_tickers.
    destruct (index_block si) as [tickers [e|]] eqn:Hib; simpl in *.
    - rewrite (Hidx e eq_refl).
      destruct (tickers_etfs si) as [l4|e4] eqn:H4.
      + eexists _, _. split; [reflexivity|]. split.
        * intros e' [= <-]. set_solver.
        * intros e' [=].
      + destruct (isinstance_AttributeError e4) eqn:Ha.
        * eexists _, _. split; [reflexivity|]. split.
          -- intros e' [= <-]. set_solver.
          -- intros e' [= <-]. left. set_solver.
        * rewrite (Hetf e4 eq_refl).
          eexists _, _. split; [reflexivity|]. split.
          -- intros e' [= <-]. set_solver.
          -- intros e' [= <-]. right. set_solver.
    - destruct (tickers_etfs si) as [l4|e4] eqn:H4.
      + eexists _, _. split; [reflexivity|]. split; [intros e' [=] | intros e' [=]].
      + destruct (isinstance_AttributeError e4) eqn:Ha.
        * eexists _, _. split; [reflexivity|]. split; [intros e' [=]|].
          intros e' [= <-]. left. set_solver.
        * rewrite (Hetf e4 eq_refl).
          eexists _, _. split; [reflexivity|]. split; [intros e' [=]|].
          intros e' [= <-]. right. set_solver. }
  destruct Hret as (logs & out & Hrun & Hlog1 & Hlog2).
  exists logs, out. split; [assumption|].
  destruct (universe_sorted_unique _ _ _ Hrun) as (_ & _ & Hiff & _).
  split; [assumption|].
  repeat split; try assumption.
  - intros l4 t H4 Hin Hv. eapply collected_kept; [eassumption | | assumption].
    unfold collected. rewrite H4. rewrite !elem_of_app. tauto.
  - intros l1 t H1 Hin Hv. eapply collected_kept; [eassumption | | assumption].
    unfold collected, index_block. rewrite H1.
    destruct (tickers_dow si); [destruct (tickers_nasdaq si)|]; simpl;
      rewrite !elem_of_app; tauto.
  - intros l1 l2 t H1 H2 Hin Hv. eapply collected_kept; [eassumption | | assumption].
    unfold collected, index_block. rewrite H1, H2.
    destruct (tickers_nasdaq si); simpl; rewrite !elem_of_app; tauto.
  - intros l1 l2 l3 t H1 H2 H3 Hin Hv.
    eapply collected_kept; [eassumption | | assumption].
    unfold collected, index_block. rewrite H1, H2, H3. simpl.
    rewrite !elem_of_app. tauto.
Qed.

Lemma discovery_goes_on_witness :
  exists logs out,
    fetch_all_tickers dow_down_no_etfs = (logs, Ok out)
    /\ (forall t, t ∈ out <-> t ∈ collected dow_down_no_etfs /\ valid_ticker t = true)
    /\ (forall l4 t, tickers_etfs dow_down_no_etfs = Ok l4 ->
          t ∈ l4 -> valid_ticker t = true -> t ∈ out)
    /\ (forall l1 t, tickers_sp500 dow_down_no_etfs = Ok l1 ->
          t ∈ l1 -> valid_ticker t = true -> t ∈ out)
    /\ (forall l1 l2 t, tickers_sp500 dow_down_no_etfs = Ok l1 ->
          tickers_dow dow_down_no_etfs = Ok l2 ->
          t ∈ l2 -> valid_ticker t = true -> t ∈ out)
    /\ (forall l1 l2 l3 t, tickers_sp500 dow_down_no_etfs = Ok l1 ->
          tickers_dow dow_down_no_etfs = Ok l2 ->
          tickers_nasdaq dow_down_no_etfs = Ok l3 ->
          t ∈ l3 -> valid_ticker t = true -> t ∈ out)
    /\ (forall e, snd (index_block dow_down_no_etfs) = Some e ->
          Log ERROR "Failed to fetch tickers for S&P 500, Dow, or NASDAQ: %s"
            [Str (exn_msg e)] ∈ logs)
    /\ (forall e, tickers_etfs dow_down_no_etfs = Raise e ->
          Log WARNING "si.tickers_etfs() is unavailable or deprecated, skipping ETFs." [] ∈ logs
          \/ Log ERROR "Failed to fetch ETF tickers: %s" [Str (exn_msg e)] ∈ logs).
Proof.
  apply (discovery_goes_on dow_down_no_etfs).
  - intros e H. vm_compute in H. injection H as <-. reflexivity.
  - intros e H. vm_compute in H. injection H as <-. reflexivity.
Defined.

(** The universe of that listing: what S&P 500 returned, and nothing of
    NASDAQ, whose call comes after the failing one. *)
Example dow_failure_universe :
  snd (fetch_all_tickers dow_down_no_etfs) = Ok ["AAPL"; "BRK.B"].
Proof. vm_compute. reflexivity. Qed.

(* ===================================================================== *)
(** * Properties of get_data.py: the incremental fetch                    *)
(* ===================================================================== *)

(** ** Dates and their text *)

Lemma digit_value_digit n : digit_value (digit n) = Some (n mod 10)%Z.
Proof.
  unfold digit.
  pose proof (Z.mod_pos_bound n 10 ltac:(lia)) as Hb.
  set (r := (n mod 10)%Z) in *.
  assert (Hr : (r = 0 \/ r = 1 \/ r = 2 \/ r = 3 \/ r = 4 \/ r = 5 \/ r = 6
                \/ r = 7 \/ r = 8 \/ r = 9)%Z) by lia.
  destruct Hr as [->|[->|[->|[->|[->|[->|[->|[->|[->| ->]]]]]]]]]; reflexivity.
Qed.

Lemma parse_year_pad4 y rest :
  (0 <= y <= 9999)%Z ->
  parse_year (pad4 y ++ "-" ++ rest)%string = Some (y, rest).
Proof.
  intros Hy. cbv [String.append pad4 pad2 parse_year].
  rewrite !digit_value_digit. do 2 f_equal.
  Z.div_mod_to_equations. lia.
Qed.

Lemma parse_month_pad2 m rest :
  (1 <= m <= 12)%Z ->
  parse_month (pad2 m ++ "-" ++ rest)%string = Some (m, rest).
Proof.
  intros Hm.
  assert (H : (m = 1 \/ m = 2 \/ m = 3 \/ m = 4 \/ m = 5 \/ m = 6 \/ m = 7
               \/ m = 8 \/ m = 9 \/ m = 10 \/ m = 11 \/ m = 12)%Z) by lia.
  destruct H as [->|[->|[->|[->|[->|[->|[->|[->|[->|[->|[->| ->]]]]]]]]]]];
    reflexivity.
Qed.

Lemma parse_day_pad2 d :
  (1 <= d <= 31)%Z -> parse_day (pad2 d) = Some d.
Proof.
  intros Hd.
  assert (H : exists n, d = Z.of_nat n /\ n < 32) by (exists (Z.to_nat d); lia).
  destruct H as (n & -> & Hn).
  do 32 (destruct n as [|n]; [first [lia | reflexivity]|]). lia.
Qed.

Lemma days_in_month_bounds y m : (28 <= days_in_month y m <= 31)%Z.
Proof.
  unfold days_in_month.
  repeat match goal with |- context [if ?c then _ else _] => destruct c end; lia.
Qed.

Lemma valid_date_bounds d :
  valid_date d = true ->
  (1 <= year d <= 9999 /\ 1 <= month d <= 12
   /\ 1 <= day d <= days_in_month (year d) (month d))%Z.
Proof.
  unfold valid_date. intros H.
  repeat (apply andb_true_iff in H as [H ?]). lia.
Qed.

(** Reading back the text of a date gives the date. *)
Lemma strptime_strftime d :
  valid_date d = true -> strptime (strftime d) = Ok d.
Proof.
  intros Hv. pose proof (valid_date_bounds _ Hv) as Hb.
  pose proof (days_in_month_bounds (year d) (month d)).
  unfold strptime, strftime.
  rewrite parse_year_pad4 by lia.
  rewrite parse_month_pad2 by lia.
  rewrite parse_day_pad2 by lia.
  destruct d as [y m dd]. simpl in *. rewrite Hv. reflexivity.
Qed.

(** [add_one_day] gives the next date of the calendar: a valid date, later
    than [d], with no valid date in between. *)
Lemma add_one_day_next d d' :
  valid_date d = true -> add_one_day d = Ok d' ->
  valid_date d' = true /\ date_lt d d'
  /\ (forall x, valid_date x = true -> date_lt d x -> date_le d' x).
Proof.
  intros Hv Hadd. pose proof (valid_date_bounds _ Hv) as Hb.
  pose proof (days_in_month_bounds (year d) (month d)) as Hdim.
  assert (Hx : forall x, valid_date x = true ->
                 (1 <= year x <= 9999 /\ 1 <= month x <= 12 /\ 1 <= day x <= 31)%Z
                 /\ (year x = year d -> month x = month d ->
                     day x <= days_in_month (year d) (month d))%Z).
  { intros x Hxv. pose proof (valid_date_bounds _ Hxv) as Hxb.
    pose proof (days_in_month_bounds (year x) (month x)).
    split; [lia|]. intros Hy Hm. rewrite <- Hy, <- Hm. lia. }
  unfold add_one_day in Hadd. unfold date_lt, date_le, date_key.
  destruct (day d <? days_in_month (year d) (month d))%Z eqn:H1.
  { injection Hadd as <-. apply Z.ltb_lt in H1. simpl. split; [|split].
    - unfold valid_date. simpl.
      repeat (apply andb_true_iff; split); apply Z.leb_le; lia.
    - lia.
    - intros x Hxv Hlt. destruct (Hx x Hxv) as [Hxb Hxd]. lia. }
  apply Z.ltb_ge in H1.
  destruct (month d <? 12)%Z eqn:H2.
  { injection Hadd as <-. apply Z.ltb_lt in H2. simpl. split; [|split].
    - unfold valid_date. simpl.
      pose proof (days_in_month_bounds (year d) (month d + 1)).
      repeat (apply andb_true_iff; split); apply Z.leb_le; lia.
    - lia.
    - intros x Hxv Hlt. destruct (Hx x Hxv) as [Hxb Hxd]. lia. }
  apply Z.ltb_ge in H2.
  destruct (year d <? 9999)%Z eqn:H3; [|discriminate].
  injection Hadd as <-. apply Z.ltb_lt in H3. simpl. split; [|split].
  - unfold valid_date. simpl.
    repeat (apply andb_true_iff; split); apply Z.leb_le; try lia.
    unfold days_in_month. simpl. lia.
  - lia.
  - intros x Hxv Hlt. destruct (Hx x Hxv) as [Hxb Hxd]. lia.
Qed.

Lemma epoch_floor_date : epoch_floor = strftime (MkDate 1950 1 1).
Proof. reflexivity. Qed.

(** ** The stored maximum *)

Lemma omap_Date_cons r rs :
  omap Date (r :: rs)
  = match Date r with
    | Some d => d :: omap Date rs
    | None => omap Date rs
    end.
Proof. reflexivity. Qed.

Lemma max_date_none rs : max_date rs = None <-> omap Date rs = [].
Proof.
  induction rs as [|r rs IH]; [simpl; tauto|].
  rewrite omap_Date_cons. cbn [max_date].
  destruct (Date r) as [d|].
  - destruct (max_date rs); split; discriminate.
  - assumption.
Qed.

Lemma date_max_cases a b :
  (date_max a b = a /\ date_le b a) \/ (date_max a b = b /\ date_le a b).
Proof.
  unfold date_max, date_le.
  destruct (date_key a <? date_key b)%Z eqn:H.
  - right. apply Z.ltb_lt in H. split; [reflexivity | lia].
  - left. apply Z.ltb_ge in H. split; [reflexivity | lia].
Qed.

(** [MAX(Date)] is a stored date, and no stored date is later. *)
Lemma max_date_some rs m :
  max_date rs = Some m ->
  m ∈ omap Date rs /\ Forall (fun d => date_le d m) (omap Date rs).
Proof.
  revert m. induction rs as [|r rs IH]; intros m H; [discriminate|].
  rewrite omap_Date_cons. cbn [max_date] in H.
  destruct (Date r) as [d|].
  - destruct (max_date rs) as [m'|] eqn:Hm.
    + injection H as <-. destruct (IH m' eq_refl) as [Hin Hall].
      destruct (date_max_cases d m') as [[-> Hle] | [-> Hle]].
      * split; [left|]. constructor; [unfold date_le; lia|].
        eapply Forall_impl; [exact Hall|]. unfold date_le in *. simpl. lia.
      * split; [right; assumption|]. constructor; assumption.
    + injection H as <-. apply max_date_none in Hm. rewrite Hm.
      split; [left|]. constructor; [unfold date_le; lia | constructor].
  - apply IH. assumption.
Qed.



(** The three cases on the scenario: no table, three stored rows, and a
    table whose dates are all NULL. *)
Example fetch_window_cases :
  snd (fetch_window (world_of aapl_data) 0 "AAPL" "AAPL" ∅) = Ok "1950-01-01"
  /\ snd (fetch_window (world_of aapl_data) 0 "AAPL" "AAPL" aapl_db) = Ok "2024-01-05"
  /\ snd (fetch_window (world_of aapl_data) 0 "AAPL" "AAPL"
            {["AAPL" := Table DATE [Row None None None None None None]]})
     = Ok "1950-01-01".
Proof. vm_compute. repeat split; reflexivity. Qed.

(** ** One iteration of the loop *)

Lemma rows_of_to_sql name new db name' :
  rows_of (to_sql name new db) name'
  = if decide (name = name') then rows_of db name ++ new else rows_of db name'.
Proof.
  unfold rows_of, to_sql.
  destruct (db !! name) as [t|] eqn:Ht; destruct (decide (name = name')) as [<-|Hne].
  - rewrite lookup_insert_eq. reflexivity.
  - rewrite lookup_insert_ne by assumption. reflexivity.
  - rewrite lookup_insert_eq. reflexivity.
  - rewrite lookup_insert_ne by assumption. reflexivity.
Qed.

Lemma stored_dates_to_sql name new db name' :
  stored_dates (to_sql name new db) name'
  = if decide (name = name')
    then stored_dates db name ++ omap Date new
    else stored_dates db name'.
Proof.
  unfold stored_dates. rewrite rows_of_to_sql.
  destruct (decide (name = name')); [apply omap_app | reflexivity].
Qed.

(** What a successful iteration did: nothing, when the source had no
    rows; otherwise one append of the normalized rows. *)
Lemma try_body_ok w k t db l db' :
  try_body w k t db = (l, Ok db') ->
  exists l1 start df,
    fetch_window w k t (table_name_of t) db = (l1, Ok start)
    /\ history w k t start = Ok df
    /\ ((df = [] /\ db' = db /\ l = l1 ++ [no_new_data t start])
        \/ (df <> [] /\ exists new,
              normalize w df = Ok new /\ to_sql_error w k = None
              /\ db' = to_sql (table_name_of t) new db
              /\ l = l1 ++ [saved t (length new) (table_name_of t)])).
Proof.
  unfold try_body.
  destruct (fetch_window w k t (table_name_of t) db) as [l1 [start|e]]; [|discriminate].
  destruct (history w k t start) as [df|e] eqn:Hh; [|discriminate].
  destruct df as [|r df].
  - intros [= <- <-]. exists l1, start, [].
    split; [reflexivity|]. split; [assumption|]. left. auto.
  - destruct (normalize w (r :: df)) as [new|e] eqn:Hn; [|discriminate].
    destruct (to_sql_error w k) as [e|] eqn:He; [discriminate|].
    intros [= <- <-]. exists l1, start, (r :: df).
    split; [reflexivity|]. split; [assumption|]. right.
    split; [discriminate|]. exists new. repeat split; auto.
Qed.

(** A failing iteration leaves the database as it found it. *)
Lemma fetch_window_log w k t name db l r :
  fetch_window w k t name db = (l, r) -> attempted l = [].
Proof.
  unfold fetch_window.
  destruct (db_read_error w k); [intros [= <- _]; reflexivity|].
  destruct (db !! name) as [tb|]; [|intros [= <- _]; reflexivity].
  destruct (select_max_date tb) eqn:Hs; try (intros [= <- _]; reflexivity);
    (destruct (next_start _); intros [= <- _]; reflexivity).
Qed.

Lemma attempted_app l1 l2 : attempted (l1 ++ l2) = attempted l1 ++ attempted l2.
Proof. apply omap_app. Qed.

(** An iteration that ends normally logs one closing record, about its
    ticker; one that raises logs none (the handler does). *)
Lemma try_body_log w k t db l r :
  try_body w k t db = (l, r) ->
  attempted l = match r with
                | Ok _ => [t]
                | Raise _ => []
                end.
Proof.
  unfold try_body.
  destruct (fetch_window w k t (table_name_of t) db) as [l1 r1] eqn:Hw.
  pose proof (fetch_window_log _ _ _ _ _ _ _ Hw) as Hl1.
  destruct r1 as [start|e]; [|intros [= <- <-]; assumption].
  destruct (history w k t start) as [[|row df]|e];
    [ intros [= <- <-]; rewrite attempted_app, Hl1; reflexivity
    | | intros [= <- <-]; assumption ].
  destruct (normalize w (row :: df)); [|intros [= <- <-]; assumption].
  destruct (to_sql_error w k); intros [= <- <-];
    [assumption | rewrite attempted_app, Hl1; reflexivity].
Qed.

Lemma try_body_extends w k t db l db' name :
  try_body w k t db = (l, Ok db') -> rows_of db name `prefix_of` rows_of db' name.
Proof.
  intros H. apply try_body_ok in H as (l1 & start & df & _ & _ & [(_ & -> & _) | (_ & new & _ & _ & -> & _)]).
  - reflexivity.
  - rewrite rows_of_to_sql. destruct (decide _) as [<-|]; [|reflexivity].
    apply prefix_app_r. reflexivity.
Qed.

(** ** The loop *)

Lemma fetch_loop_app w l1 : forall k l2 db,
  fetch_loop w k (l1 ++ l2) db
  = let '(db1, logs1, x1) := fetch_loop w k l1 db in
    match x1 with
    | Some e => (db1, logs1, Some e)
    | None =>
        let '(db2, logs2, x2) := fetch_loop w (k + length l1) l2 db1 in
        (db2, logs1 ++ logs2, x2)
    end.
Proof.
  induction l1 as [|t l1 IH]; intros k l2 db.
  - simpl. rewrite Nat.add_0_r. destruct (fetch_loop w k l2 db) as [[? ?] ?]. reflexivity.
  - cbn [app fetch_loop length].
    replace (k + S (length l1)) with (S k + length l1) by lia.
    destruct (try_body w k t db) as [l [db'|e]].
    + rewrite IH. destruct (fetch_loop w (S k) l1 db') as [[db1 logs1] [e1|]];
        [reflexivity|].
      destruct (fetch_loop w (S k + length l1) l2 db1) as [[db2 logs2] x2].
      rewrite app_assoc. reflexivity.
    + destruct (isinstance_Exception e); [|reflexivity].
      rewrite IH. destruct (fetch_loop w (S k) l1 db) as [[db1 logs1] [e1|]];
        [reflexivity|].
      destruct (fetch_loop w (S k + length l1) l2 db1) as [[db2 logs2] x2].
      rewrite <- app_assoc. reflexivity.
Qed.

(** A run that no exception leaves has a closing record for every ticker,
    in the order of the list. *)
Lemma attempted_all w tickers : forall k db db' logs,
  fetch_loop w k tickers db = (db', logs, None) -> attempted logs = tickers.
Proof.
  induction tickers as [|t tickers IH]; intros k db db' logs H; simpl in H.
  - injection H as <- <-. reflexivity.
  - destruct (try_body w k t db) as [l r] eqn:Hb.
    pose proof (try_body_log _ _ _ _ _ _ Hb) as Hl.
    destruct r as [db1|e].
    + destruct (fetch_loop w (S k) tickers db1) as [[db2 l2] x2] eqn:Hrest.
      injection H as <- <- ->. rewrite attempted_app, Hl.
      rewrite (IH _ _ _ _ Hrest). reflexivity.
    + destruct (isinstance_Exception e); [|discriminate].
      destruct (fetch_loop w (S k) tickers db) as [[db2 l2] x2] eqn:Hrest.
      injection H as <- <- ->. rewrite attempted_app, Hl. simpl.
      rewrite (IH _ _ _ _ Hrest). reflexivity.
Qed.

(** The loop only appends: what a table held stays at its front. *)
Lemma fetch_loop_extends w tickers : forall k db db' logs x name,
  fetch_loop w k tickers db = (db', logs, x) ->
  rows_of db name `prefix_of` rows_of db' name.
Proof.
  induction tickers as [|t tickers IH]; intros k db db' logs x name H; simpl in H.
  - injection H as <- _ _. reflexivity.
  - destruct (try_body w k t db) as [l [db1|e]] eqn:Hb.
    + destruct (fetch_loop w (S k) tickers db1) as [[db2 l2] x2] eqn:Hrest.
      injection H as <- _ _. etrans; [eapply try_body_extends; eassumption|].
      eapply IH; eassumption.
    + destruct (isinstance_Exception e).
      * destruct (fetch_loop w (S k) tickers db) as [[db2 l2] x2] eqn:Hrest.
        injection H as <- _ _. eapply IH; eassumption.
      * injection H as <- _ _. reflexivity.
Qed.

(** Against C3 as stated: an interrupt during the first ticker is not
    caught; nothing is logged for it, and the second ticker is never
    attempted. *)
Lemma interrupt_ends_the_run :
  fetch_historical_data interrupted_world ["AAPL"; "MSFT"] ∅
  = (∅,
     [Log INFO "Starting historical data fetch for %d tickers..." [Int 2]],
     Some (Exn KeyboardInterrupt ""))
  /\ try_body interrupted_world 0 "AAPL" ∅ = ([], Raise (Exn KeyboardInterrupt ""))
  /\ attempted (snd (fst (fetch_historical_data interrupted_world ["AAPL"; "MSFT"] ∅)))
     = [].
Proof. vm_compute. repeat split; reflexivity. Qed.

(** C3, amended (bulkhead isolation).  Let the tickers before [X] have
    been processed and let the body of the [try] for [X] end in [r], a
    database or an exception that is an [Exception].  Then the run goes on
    with the tickers after [X]: from the database [X] left when it
    succeeded, from the unchanged database when it raised, in which case
    the record "[X] Failed to process ticker" is logged.  Whatever the
    tables held after [X] stays in them to the end of the run, and when no
    exception leaves the run every ticker has its closing record, in
    order. *)
Theorem bulkhead w before X after db db1 logs1 lX r :
  fetch_loop w 0 before db = (db1, logs1, None) ->
  try_body w (length before) X db1 = (lX, r) ->
  (forall e, r = Raise e -> isinstance_Exception e = true) ->
  exists db' logs2 x,
    fetch_loop w (S (length before)) after
      match r with Ok d => d | Raise _ => db1 end = (db', logs2, x)
    /\ fetch_historical_data w (before ++ X :: after) db
       = (db',
          Log INFO "Starting historical data fetch for %d tickers..."
            [Int (Z.of_nat (length (before ++ X :: after)))]
          :: logs1 ++ lX
             ++ match r with Ok _ => [] | Raise e => [failed X e] end ++ logs2,
          x)
    /\ (forall name,
          rows_of match r with Ok d => d | Raise _ => db1 end name
          `prefix_of` rows_of db' name)
    /\ (x = None ->
        attempted (logs1 ++ lX
                   ++ match r with Ok _ => [] | Raise e => [failed X e] end ++ logs2)
        = before ++ X :: after).
Proof.
  intros Hbefore HX Hexc.
  destruct (fetch_loop w (S (length before)) after
              match r with Ok d => d | Raise _ => db1 end)
    as [[db' logs2] x] eqn:Hafter.
  exists db', logs2, x.
  assert (Hloop : fetch_loop w 0 (before ++ X :: after) db
                  = (db', logs1 ++ lX
                          ++ match r with Ok _ => [] | Raise e => [failed X e] end
                          ++ logs2, x)).
  { rewrite fetch_loop_app, Hbefore. cbn [Nat.add fetch_loop]. rewrite HX.
    destruct r as [d|e].
    - rewrite Hafter. reflexivity.
    - rewrite (Hexc e eq_refl), Hafter. reflexivity. }
  split; [reflexivity|]. split; [|split].
  - unfold fetch_historical_data. rewrite Hloop. reflexivity.
  - intros name. eapply fetch_loop_extends; eassumption.
  - intros ->. eapply attempted_all; eassumption.
Qed.

Lemma bulkhead_witness :
  exists db' logs2 x,
    fetch_loop flaky_world (S (length (@nil string))) ["AAPL"]
      match @Raise database (Exn (OtherException "ConnectionError") "timed out") with
      | Ok d => d
      | Raise _ => ∅
      end = (db', logs2, x)
    /\ fetch_historical_data flaky_world ([] ++ "MSFT" :: ["AAPL"]) ∅
       = (db',
          Log INFO "Starting historical data fetch for %d tickers..."
            [Int (Z.of_nat (length ([] ++ "MSFT" :: ["AAPL"])))]
          :: [] ++ []
             ++ match @Raise database (Exn (OtherException "ConnectionError") "timed out") with
                | Ok _ => []
                | Raise e => [failed "MSFT" e]
                end ++ logs2,
          x)
    /\ (forall name,
          rows_of match @Raise database (Exn (OtherException "ConnectionError") "timed out") with
                  | Ok d => d
                  | Raise _ => ∅
                  end name
          `prefix_of` rows_of db' name)
    /\ (x = None ->
        attempted ([] ++ []
                   ++ match @Raise database (Exn (OtherException "ConnectionError") "timed out") with
                      | Ok _ => []
                      | Raise e => [failed "MSFT" e]
                      end ++ logs2)
        = [] ++ "MSFT" :: ["AAPL"]).
Proof.
  apply (bulkhead flaky_world [] "MSFT" ["AAPL"] ∅ ∅ [] []
           (Raise (Exn (OtherException "ConnectionError") "timed out"))).
  - reflexivity.
  - vm_compute. reflexivity.
  - intros e [= <-]. reflexivity.
Defined.

(** The run of that scenario: MSFT fails, AAPL is fetched and stored. *)
Example failure_then_success :
  attempted (snd (fst (fetch_historical_data flaky_world ["MSFT"; "AAPL"] ∅)))
  = ["MSFT"; "AAPL"]
  /\ length (rows_of (fst (fst (fetch_historical_data flaky_world ["MSFT"; "AAPL"] ∅)))
               "AAPL") = 3.
Proof. vm_compute. split; reflexivity. Qed.

(** ** A run for which the source has nothing new *)




(** The scenario of the design document: AAPL has no table, the source
    holds three rows; the first run stores them, and a second run with
    the same source asks from 2024-01-05 on and stores nothing. *)
Example aapl_two_runs :
  length (rows_of aapl_db "AAPL") = 3
  /\ snd (fetch_window (world_of aapl_data) 0 "AAPL" "AAPL" aapl_db) = Ok "2024-01-05"
  /\ fst (fst (fetch_historical_data (world_of aapl_data) ["AAPL"] aapl_db)) = aapl_db.
Proof. vm_compute. repeat split; reflexivity. Qed.

(** ** Normalizing a batch *)

Lemma to_numeric_length parse errors col vs :
  to_numeric parse errors col = Ok vs -> length vs = length col.
Proof.
  revert vs. induction col as [|x col IH]; intros vs H; simpl in H.
  - injection H as <-. reflexivity.
  - destruct (to_numeric_cell parse errors x) as [v|e]; [|discriminate].
    simpl in H. destruct (to_numeric parse errors col) as [vs'|e]; [|discriminate].
    injection H as <-. simpl. rewrite (IH vs' eq_refl). reflexivity.
Qed.

(** Under [errors='raise'] one text that is not a number makes the whole
    column, and so the whole batch, raise ValueError. *)
Lemma to_numeric_raises parse col s :
  PyStr s ∈ col -> parse s = None ->
  exists e, to_numeric parse errors_raise col = Raise e /\ exn_type e = ValueError.
Proof.
  intros Hin Hp. induction col as [|x col IH]; [inversion Hin|].
  simpl. apply elem_of_cons in Hin as [<-|Hin].
  - simpl. rewrite Hp. simpl. eauto.
  - destruct (to_numeric_cell parse errors_raise x) as [v|e] eqn:Hx.
    + simpl. destruct (IH Hin) as (e & -> & He). simpl. eauto.
    + simpl. exists e. split; [reflexivity|].
      destruct x as [q|s'|]; simpl in Hx; try discriminate.
      destruct (parse s'); [discriminate|]. injection Hx as <-. reflexivity.
Qed.

(** Under [errors='coerce'] no column raises. *)
Lemma to_numeric_coerce parse col :
  exists vs, to_numeric parse errors_coerce col = Ok vs.
Proof.
  induction col as [|x col [vs IH]]; simpl; [eauto|].
  rewrite IH. destruct x as [q|s|]; simpl; eauto.
  destruct (parse s); simpl; eauto.
Qed.

Lemma build_rows_dates dates : forall o h l c v,
  length o = length dates -> length h = length dates -> length l = length dates ->
  length c = length dates -> length v = length dates ->
  omap Date (build_rows dates o h l c v) = dates.
Proof.
  induction dates as [|d dates IH]; intros o h l c v Ho Hh Hl Hc Hv.
  - reflexivity.
  - destruct o, h, l, c, v; simpl in *; try discriminate.
    rewrite IH by lia. reflexivity.
Qed.

(** The stored Date of every row is the calendar date of its timestamp:
    the time of day is dropped. *)
Lemma normalize_dates w df new :
  normalize w df = Ok new -> omap Date new = map row_date df.
Proof.
  unfold normalize.
  destruct (to_numeric _ _ (map f_Open df)) as [o|] eqn:Ho; [|discriminate].
  destruct (to_numeric _ _ (map f_High df)) as [h|] eqn:Hh; [|discriminate].
  destruct (to_numeric _ _ (map f_Low df)) as [l|] eqn:Hl; [|discriminate].
  destruct (to_numeric _ _ (map f_Close df)) as [c|] eqn:Hc; [|discriminate].
  destruct (to_numeric _ _ (map f_Volume df)) as [v|] eqn:Hv; [|discriminate].
  simpl. intros [= <-].
  apply to_numeric_length in Ho, Hh, Hl, Hc, Hv.
  rewrite length_map in Ho, Hh, Hl, Hc, Hv.
  apply build_rows_dates; rewrite length_map; assumption.
Qed.

(** C7 (coercion of a batch).  A batch of two rows in which the Open
    of the second is the text "N/A": [pd.to_numeric] is called with its
    default [errors='raise'], the [try] body raises ValueError, the handler
    logs the failure and nothing of the batch is stored, not even its
    first row.  With [errors='coerce'], as the cleaning script calls it,
    both rows would be kept and the Open of the second would be null. *)
Theorem text_cell_fails_the_batch :
  try_body text_world 0 "AAPL" ∅
  = ([], Raise (Exn ValueError "Unable to parse string N/A"))
  /\ fetch_historical_data text_world ["AAPL"] ∅
     = (∅,
        [Log INFO "Starting historical data fetch for %d tickers..." [Int 1];
         failed "AAPL" (Exn ValueError "Unable to parse string N/A")],
        None)
  /\ (exists r1 r2,
        normalize_coerce text_world batch_with_text = Ok [r1; r2]
        /\ Date r2 = Some (MkDate 2024 1 3) /\ Open r2 = None).
Proof.
  split; [vm_compute; reflexivity|]. split; [vm_compute; reflexivity|].
  eexists _, _. split; [vm_compute; reflexivity|]. split; reflexivity.
Qed.

Lemma to_numeric_raise_kind parse col e :
  to_numeric parse errors_raise col = Raise e -> exn_type e = ValueError.
Proof.
  induction col as [|x col IH]; simpl; [discriminate|].
  destruct x as [q|s|]; simpl.
  - destruct (to_numeric parse errors_raise col); simpl; [discriminate|].
    intros [= <-]. apply IH. reflexivity.
  - destruct (parse s); simpl.
    + destruct (to_numeric parse errors_raise col); simpl; [discriminate|].
      intros [= <-]. apply IH. reflexivity.
    + intros [= <-]. reflexivity.
  - destruct (to_numeric parse errors_raise col); simpl; [discriminate|].
    intros [= <-]. apply IH. reflexivity.
Qed.

(** The same for any batch: one price cell that pandas cannot read makes
    [normalize] raise ValueError. *)
Lemma unreadable_cell_raises w df r s :
  r ∈ df -> numeric_literal w s = None ->
  (f_Open r = PyStr s \/ f_High r = PyStr s \/ f_Low r = PyStr s
   \/ f_Close r = PyStr s \/ f_Volume r = PyStr s) ->
  exists e, normalize w df = Raise e /\ exn_type e = ValueError.
Proof.
  intros Hin Hp Hcell.
  assert (Hcol : forall f vs, f r = PyStr s ->
            to_numeric (numeric_literal w) errors_raise (map f df) <> Ok vs).
  { intros f vs Hf Hok.
    destruct (to_numeric_raises (numeric_literal w) (map f df) s) as (e & He & _);
      [rewrite <- Hf; apply list_elem_of_fmap_2; assumption | assumption | congruence]. }
  unfold normalize.
  destruct (to_numeric _ _ (map f_Open df)) as [o|e] eqn:Ho;
    [|exists e; split; [reflexivity | eapply to_numeric_raise_kind; eassumption]].
  destruct (to_numeric _ _ (map f_High df)) as [h|e] eqn:Hh;
    [|exists e; split; [reflexivity | eapply to_numeric_raise_kind; eassumption]].
  destruct (to_numeric _ _ (map f_Low df)) as [l|e] eqn:Hl;
    [|exists e; split; [reflexivity | eapply to_numeric_raise_kind; eassumption]].
  destruct (to_numeric _ _ (map f_Close df)) as [c|e] eqn:Hc;
    [|exists e; split; [reflexivity | eapply to_numeric_raise_kind; eassumption]].
  destruct (to_numeric _ _ (map f_Volume df)) as [v|e] eqn:Hv;
    [|exists e; split; [reflexivity | eapply to_numeric_raise_kind; eassumption]].
  exfalso. destruct Hcell as [H|[H|[H|[H|H]]]];
    eapply Hcol; eassumption.
Qed.

(** ** One row per date *)

Lemma sorted_dates_NoDup l : StronglySorted date_lt l -> NoDup l.
Proof.
  induction 1 as [|x l Hs IH Hx]; constructor; [|assumption].
  intros Hin. rewrite Forall_forall in Hx. specialize (Hx x Hin).
  unfold date_lt in Hx. lia.
Qed.

(** How the start of a window relates to what is stored, for stored dates
    of the calendar: the epoch floor for an empty table, else the day
    after the latest stored date. *)
Lemma fetch_window_inv w k t name db l start :
  Forall (fun d => valid_date d = true) (stored_dates db name) ->
  fetch_window w k t name db = (l, Ok start) ->
  (stored_dates db name = [] /\ start = epoch_floor)
  \/ (exists m d',
        m ∈ stored_dates db name
        /\ Forall (fun d => date_le d m) (stored_dates db name)
        /\ add_one_day m = Ok d' /\ start = strftime d').
Proof.
  intros Hvalid. unfold fetch_window, stored_dates, rows_of in *.
  destruct (db_read_error w k); [discriminate|].
  destruct (db !! name) as [tb|]; [|intros [= _ <-]; left; auto].
  unfold select_max_date.
  destruct (max_date (rows tb)) as [m|] eqn:Hm.
  - destruct (max_date_some _ _ Hm) as [Hin Hmax].
    assert (Hvm : valid_date m = true).
    { rewrite Forall_forall in Hvalid. apply Hvalid. assumption. }
    assert (Hnext : forall sc,
              (sc = SDate m \/ sc = SDatetime m 0 \/ sc = SStr (strftime m)) ->
              next_start sc = bind (add_one_day m) (fun d' => Ok (strftime d'))).
    { intros sc [->|[->| ->]]; unfold next_start; simpl;
        rewrite ?strptime_strftime by assumption; reflexivity. }
    intros H. right.
    assert (Hres : exists d', add_one_day m = Ok d' /\ start = strftime d').
    { destruct (date_type tb);
        [ rewrite (Hnext (SDate m)) in H by auto
        | rewrite (Hnext (SDatetime m 0)) in H by auto
        | rewrite (Hnext (SStr (strftime m))) in H by auto ];
        (destruct (add_one_day m) as [d'|e]; simpl in H;
         [injection H as _ <-; eauto | discriminate]). }
    destruct Hres as (d' & Hadd & ->). exists m, d'. auto.
  - apply max_date_none in Hm. intros [= _ <-]. left. auto.
Qed.

Lemma try_body_unique w k t db l db' :
  honours_window w -> dates_unique db ->
  try_body w k t db = (l, Ok db') -> dates_unique db'.
Proof.
  intros Hw Hu H.
  apply try_body_ok in H
    as (l1 & start & df & Hwin & Hh & [(_ & -> & _) | (_ & new & Hn & _ & -> & _)]);
    [assumption|].
  intros name'. rewrite stored_dates_to_sql.
  destruct (decide (table_name_of t = name')) as [_|_]; [|apply Hu].
  destruct (Hu (table_name_of t)) as [Hnd Hvalid].
  rewrite (normalize_dates _ _ _ Hn).
  assert (Hsrc : exists s,
             strptime start = Ok s
             /\ Forall (fun d => date_lt d s) (stored_dates db (table_name_of t))).
  { destruct (fetch_window_inv _ _ _ _ _ _ _ Hvalid Hwin)
      as [[Hempty ->] | (m & d' & Hin & Hmax & Hadd & ->)].
    - exists (MkDate 1950 1 1). split; [reflexivity|]. rewrite Hempty. constructor.
    - assert (Hvm : valid_date m = true).
      { rewrite Forall_forall in Hvalid. apply Hvalid. assumption. }
      destruct (add_one_day_next _ _ Hvm Hadd) as (Hvd & Hlt & _).
      exists d'. split; [apply strptime_strftime; assumption|].
      eapply Forall_impl; [exact Hmax|]. unfold date_le, date_lt in *. simpl. lia. }
  destruct Hsrc as (s & Hs & Hbefore).
  destruct (Hw _ _ _ _ _ Hh Hs) as [Hafter Hsorted].
  split.
  - apply NoDup_app. split; [assumption|]. split; [|apply sorted_dates_NoDup; assumption].
    intros x Hx Hx'. rewrite Forall_forall in Hbefore. specialize (Hbefore x Hx).
    apply list_elem_of_fmap in Hx' as (r & -> & Hr).
    rewrite Forall_forall in Hafter. destruct (Hafter r Hr) as [Hle _].
    unfold date_le, date_lt in *. lia.
  - apply Forall_app. split; [assumption|].
    apply Forall_fmap. eapply Forall_impl; [exact Hafter|]. simpl. tauto.
Qed.



Lemma sorted_map_filter (P : frame_row -> Prop) `{forall r, Decision (P r)} l :
  StronglySorted date_lt (map row_date l) ->
  StronglySorted date_lt (map row_date (filter P l)).
Proof.
  induction l as [|r l IH]; simpl; [constructor|].
  intros Hs. apply StronglySorted_inv in Hs as [Hs Hr].
  rewrite filter_cons. destruct (decide (P r)); [|apply IH; assumption].
  simpl. constructor; [apply IH; assumption|].
  apply Forall_forall. intros d Hd.
  apply list_elem_of_fmap in Hd as (r' & -> & Hr').
  apply list_elem_of_filter in Hr' as [_ Hr'].
  rewrite Forall_forall in Hr. apply Hr. apply list_elem_of_fmap_2. assumption.
Qed.

(** A source that filters ordered, valid rows by the start honours the
    window. *)
Lemma world_of_honours data :
  (forall t, StronglySorted date_lt (map row_date (data t))
             /\ Forall (fun r => valid_date (row_date r) = true) (data t)) ->
  honours_window (world_of data).
Proof.
  intros Hdata k ticker start s df H Hs.
  simpl in H. unfold history_of in H. rewrite Hs in H. simpl in H.
  injection H as <-. destruct (Hdata ticker) as [Hsorted Hvalid]. split.
  - apply Forall_forall. intros r Hr. apply list_elem_of_filter in Hr as [Hle Hr].
    split.
    + unfold date_leb in Hle. apply Z.leb_le in Hle. exact Hle.
    + rewrite Forall_forall in Hvalid. apply Hvalid. assumption.
  - apply sorted_map_filter. assumption.
Qed.

Lemma brk_world_honours : honours_window (world_of brk_data).
Proof.
  apply world_of_honours. intros t. unfold brk_data.
  destruct (bool_decide (t = "BRK-B")); [|destruct (bool_decide (t = "BRK.B"))];
    simpl; split; repeat constructor; unfold date_lt; simpl; lia.
Qed.

Lemma empty_dates_unique : dates_unique ∅.
Proof.
  intros name. unfold stored_dates, rows_of. rewrite lookup_empty. simpl.
  split; constructor.
Qed.



(* ===================================================================== *)
(** * More on get_data.py                                                 *)
(* ===================================================================== *)

(** ** The start of the window *)

Lemma next_start_forms d secs :
  valid_date d = true ->
  next_start (SStr (strftime d)) = next_start (SDate d)
  /\ next_start (SDatetime d secs) = next_start (SDate d).
Proof.
  intros Hv. unfold next_start. rewrite strptime_strftime by assumption. auto.
Qed.

(** X1.  The window does not depend on how the Date column is typed: a
    table of dates, of datetimes or of ISO texts with the same rows gives
    the same start. *)
Theorem window_ignores_column_type w k ticker name db ty1 ty2 rs :
  Forall (fun d => valid_date d = true) (omap Date rs) ->
  snd (fetch_window w k ticker name (<[name := Table ty1 rs]> db))
  = snd (fetch_window w k ticker name (<[name := Table ty2 rs]> db)).
Proof.
  intros Hvalid. unfold fetch_window.
  destruct (db_read_error w k); [reflexivity|].
  rewrite !lookup_insert_eq. unfold select_max_date. simpl.
  destruct (max_date rs) as [m|] eqn:Hm; [|reflexivity].
  destruct (max_date_some _ _ Hm) as [Hin _].
  assert (Hv : valid_date m = true).
  { rewrite Forall_forall in Hvalid. apply Hvalid. assumption. }
  destruct (next_start_forms m 0 Hv) as [Hs Hd].
  destruct ty1, ty2; simpl; rewrite ?Hs, ?Hd;
    destruct (next_start (SDate m)); reflexivity.
Qed.

Lemma window_ignores_column_type_witness :
  snd (fetch_window (world_of aapl_data) 0 "AAPL" "AAPL"
         (<["AAPL" := Table DATE (rows_of aapl_db "AAPL")]> ∅))
  = snd (fetch_window (world_of aapl_data) 0 "AAPL" "AAPL"
           (<["AAPL" := Table TEXT (rows_of aapl_db "AAPL")]> ∅)).
Proof.
  apply (window_ignores_column_type (world_of aapl_data) 0 "AAPL" "AAPL" ∅ DATE TEXT).
  vm_compute. repeat constructor.
Defined.



(** ** What a run touches *)

Lemma try_body_frame w k t db l db' name :
  try_body w k t db = (l, Ok db') -> name <> table_name_of t ->
  db' !! name = db !! name.
Proof.
  intros H Hne.
  apply try_body_ok in H
    as (l1 & start & df & _ & _ & [(_ & -> & _) | (_ & new & _ & _ & -> & _)]);
    [reflexivity|].
  unfold to_sql. destruct (db !! table_name_of t);
    rewrite lookup_insert_ne by congruence; reflexivity.
Qed.

Lemma fetch_loop_frame w tickers : forall k db db' logs x name,
  fetch_loop w k tickers db = (db', logs, x) ->
  name ∉ map table_name_of tickers ->
  db' !! name = db !! name.
Proof.
  induction tickers as [|t tickers IH]; intros k db db' logs x name H Hout; simpl in H.
  - injection H as <- _ _. reflexivity.
  - simpl in Hout. apply not_elem_of_cons in Hout as [Hne Hout].
    destruct (try_body w k t db) as [l [db1|e]] eqn:Hb.
    + destruct (fetch_loop w (S k) tickers db1) as [[db2 l2] x2] eqn:Hrest.
      injection H as <- _ _. rewrite (IH _ _ _ _ _ _ Hrest Hout).
      eapply try_body_frame; eassumption.
    + destruct (isinstance_Exception e).
      * destruct (fetch_loop w (S k) tickers db) as [[db2 l2] x2] eqn:Hrest.
        injection H as <- _ _. eapply IH; eassumption.
      * injection H as <- _ _. reflexivity.
Qed.

(** X3.  A run reads and writes only the tables its tickers are stored
    under: a table with any other name is neither changed nor created,
    whatever the source returns and whichever iteration fails. *)
Theorem untouched_tables w ticker_list db name :
  name ∉ map table_name_of ticker_list ->
  fst (fst (fetch_historical_data w ticker_list db)) !! name = db !! name.
Proof.
  intros Hout. unfold fetch_historical_data.
  destruct (fetch_loop w 0 ticker_list db) as [[db' logs] x] eqn:Hloop. simpl.
  eapply fetch_loop_frame; eassumption.
Qed.

Lemma untouched_tables_witness :
  fst (fst (fetch_historical_data (world_of brk_data) ["BRK-B"; "BRK.B"] aapl_db)) !! "AAPL"
  = aapl_db !! "AAPL".
Proof.
  apply (untouched_tables (world_of brk_data) ["BRK-B"; "BRK.B"] aapl_db "AAPL").
  vm_compute. intros H. repeat (apply elem_of_cons in H as [H|H]; [discriminate|]).
  inversion H.
Defined.

Lemma try_body_keeps w k t db l db' name tb :
  try_body w k t db = (l, Ok db') -> db !! name = Some tb ->
  exists tb', db' !! name = Some tb'
              /\ date_type tb' = date_type tb /\ rows tb `prefix_of` rows tb'.
Proof.
  intros H Htb.
  apply try_body_ok in H
    as (l1 & start & df & _ & _ & [(_ & -> & _) | (_ & new & _ & _ & -> & _)]).
  - exists tb. split; [assumption|]. split; reflexivity.
  - unfold to_sql. destruct (decide (name = table_name_of t)) as [->|Hne].
    + rewrite Htb, lookup_insert_eq. eexists. split; [reflexivity|]. simpl.
      split; [reflexivity | apply prefix_app_r; reflexivity].
    + exists tb. destruct (db !! table_name_of t);
        rewrite lookup_insert_ne by congruence; (split; [assumption|]); split; reflexivity.
Qed.

Lemma fetch_loop_keeps w tickers : forall k db db' logs x name tb,
  fetch_loop w k tickers db = (db', logs, x) -> db !! name = Some tb ->
  exists tb', db' !! name = Some tb'
              /\ date_type tb' = date_type tb /\ rows tb `prefix_of` rows tb'.
Proof.
  induction tickers as [|t tickers IH]; intros k db db' logs x name tb H Htb; simpl in H.
  - injection H as <- _ _. exists tb. split; [assumption|]. split; reflexivity.
  - destruct (try_body w k t db) as [l [db1|e]] eqn:Hb.
    + destruct (fetch_loop w (S k) tickers db1) as [[db2 l2] x2] eqn:Hrest.
      injection H as <- _ _.
      destruct (try_body_keeps _ _ _ _ _ _ _ _ Hb Htb) as (tb1 & H1 & Hty1 & Hp1).
      destruct (IH _ _ _ _ _ _ _ Hrest H1) as (tb2 & H2 & Hty2 & Hp2).
      exists tb2. split; [assumption|]. split; [congruence | etrans; eassumption].
    + destruct (isinstance_Exception e).
      * destruct (fetch_loop w (S k) tickers db) as [[db2 l2] x2] eqn:Hrest.
        injection H as <- _ _. eapply IH; eassumption.
      * injection H as <- _ _. exists tb. split; [assumption|]. split; reflexivity.
Qed.

Lemma max_date_grows rs extra m :
  max_date rs = Some m ->
  exists m', max_date (rs ++ extra) = Some m' /\ date_le m m'.
Proof.
  intros Hm. destruct (max_date_some _ _ Hm) as [Hin _].
  destruct (max_date (rs ++ extra)) as [m'|] eqn:Hm'.
  - exists m'. split; [reflexivity|].
    destruct (max_date_some _ _ Hm') as [_ Hall].
    rewrite Forall_forall in Hall. apply Hall.
    rewrite omap_app. apply elem_of_app. left. assumption.
  - apply max_date_none in Hm'. rewrite omap_app in Hm'.
    apply app_eq_nil in Hm' as [Hnil _]. rewrite Hnil in Hin. inversion Hin.
Qed.

(** X4.  Storage is append-only and the watermark never goes back: after
    any run, every table that existed still exists with the same column
    type, its old rows are the front of its new rows, and its latest date
    is the old one or later.  This holds whatever the source returns and
    also when the run is cut short. *)
Theorem append_only w ticker_list db name tb :
  db !! name = Some tb ->
  exists tb',
    fst (fst (fetch_historical_data w ticker_list db)) !! name = Some tb'
    /\ date_type tb' = date_type tb
    /\ rows tb `prefix_of` rows tb'
    /\ (forall m, max_date (rows tb) = Some m ->
          exists m', max_date (rows tb') = Some m' /\ date_le m m').
Proof.
  intros Htb. unfold fetch_historical_data.
  destruct (fetch_loop w 0 ticker_list db) as [[db' logs] x] eqn:Hloop. simpl.
  destruct (fetch_loop_keeps _ _ _ _ _ _ _ _ _ Hloop Htb) as (tb' & H1 & Hty & [extra Hp]).
  exists tb'. split; [assumption|]. split; [assumption|].
  split; [exists extra; assumption|].
  intros m Hm. rewrite Hp. apply max_date_grows. assumption.
Qed.

Lemma append_only_witness :
  exists tb',
    fst (fst (fetch_historical_data flaky_world ["MSFT"; "AAPL"] aapl_db)) !! "AAPL"
    = Some tb'
    /\ date_type tb' = date_type (Table DATE (rows_of aapl_db "AAPL"))
    /\ rows (Table DATE (rows_of aapl_db "AAPL")) `prefix_of` rows tb'
    /\ (forall m, max_date (rows (Table DATE (rows_of aapl_db "AAPL"))) = Some m ->
          exists m', max_date (rows tb') = Some m' /\ date_le m m').
Proof.
  apply (append_only flaky_world ["MSFT"; "AAPL"] aapl_db "AAPL"
           (Table DATE (rows_of aapl_db "AAPL"))).
  vm_compute. reflexivity.
Defined.

(** ** Table names *)

Lemma replace_length old new s : String.length (replace old new s) = String.length s.
Proof. induction s as [|c s IH]; simpl; [reflexivity | rewrite IH; reflexivity]. Qed.

Lemma table_name_cons c t :
  table_name_of (String c t)
  = String (if separator c then "_"%char else c) (table_name_of t).
Proof.
  unfold table_name_of, separator. cbn [replace].
  destruct (decide (c = "."%char)) as [->|Hdot].
  - reflexivity.
  - rewrite (bool_decide_eq_false_2 _ Hdot). cbn [orb].
    destruct (decide (c = "-"%char)) as [->|Hdash].
    + reflexivity.
    + rewrite (bool_decide_eq_false_2 _ Hdash). reflexivity.
Qed.

(** X5.  The table name of a ticker has the ticker's length, contains
    neither '.' nor '-', and is its own table name; a ticker without
    separators is stored under its own name, and the table name of a safe
    name consists of upper-case letters and underscores only. *)
Theorem table_name_shape t :
  String.length (table_name_of t) = String.length t
  /\ forall_chars (fun c => negb (separator c)) (table_name_of t) = true
  /\ table_name_of (table_name_of t) = table_name_of t
  /\ (forall_chars (fun c => negb (separator c)) t = true -> table_name_of t = t)
  /\ (all_safe t = true -> forall_chars table_char (table_name_of t) = true).
Proof.
  induction t as [|c t (IH1 & IH2 & IH3 & IH4 & IH5)].
  - repeat split; reflexivity.
  - rewrite !table_name_cons. cbn [String.length forall_chars all_safe].
    rewrite IH1, IH2, IH3.
    destruct (separator c) eqn:Hsep; cbn [negb andb].
    + repeat split; try reflexivity; try discriminate.
      intros H. apply andb_true_iff in H as [_ H]. rewrite (IH5 H). reflexivity.
    + rewrite Hsep. repeat split; try reflexivity.
      * intros H. rewrite (IH4 H). reflexivity.
      * intros H. apply andb_true_iff in H as [Hc H]. rewrite (IH5 H).
        unfold safe_char, separator in *. unfold table_char.
        apply orb_false_iff in Hsep as [Hdot Hdash]. rewrite Hdot, Hdash in Hc.
        rewrite !orb_false_r in Hc. rewrite Hc. reflexivity.
Qed.


(** ** The universe *)

Lemma strip_no_newline t : no_newline t = true -> strip_final_newline t = t.
Proof.
  unfold no_newline. induction t as [|c t IH]; [reflexivity|].
  cbn [forall_chars]. intros H. apply andb_true_iff in H as [Hc Ht].
  apply negb_true_iff in Hc. cbn [strip_final_newline].
  destruct t as [|d t']; [rewrite Hc; reflexivity|].
  rewrite (IH Ht). reflexivity.
Qed.

(** X6.  What discovery guarantees whenever it returns: the universe is
    sorted by code point and free of duplicates; it consists of exactly
    the gathered candidates that pass the filter; each member has at most
    64 characters and is a safe name, possibly followed by one newline;
    a member without a newline character is a safe name. *)
Theorem universe_shape si logs out :
  fetch_all_tickers si = (logs, Ok out) ->
  StronglySorted String.le out
  /\ NoDup out
  /\ (forall t, t ∈ out <-> t ∈ collected si /\ valid_ticker t = true)
  /\ (forall t, t ∈ out ->
        len t <= 64 /\ t <> ""
        /\ safe_name (strip_final_newline t) = true
        /\ (no_newline t = true -> safe_name t = true)).
Proof.
  intros H. destruct (universe_sorted_unique _ _ _ H) as (Hs & Hn & Hiff & Hall).
  split; [assumption|]. split; [assumption|]. split; [assumption|].
  intros t Ht. destruct (Hall t Ht) as [Hlen Hsafe].
  split; [assumption|]. split; [|split; [assumption|]].
  - intros ->. vm_compute in Hsafe. discriminate.
  - intros Hnl. rewrite <- (strip_no_newline t Hnl) at 1. assumption.
Qed.

Lemma universe_shape_witness :
  StronglySorted String.le ["AAPL"; "BRK.B"]
  /\ NoDup ["AAPL"; "BRK.B"]
  /\ (forall t, t ∈ ["AAPL"; "BRK.B"]
                <-> t ∈ collected dow_down_no_etfs /\ valid_ticker t = true)
  /\ (forall t, t ∈ ["AAPL"; "BRK.B"] ->
        len t <= 64 /\ t <> ""
        /\ safe_name (strip_final_newline t) = true
        /\ (no_newline t = true -> safe_name t = true)).
Proof.
  apply (universe_shape dow_down_no_etfs
           (fst (fetch_all_tickers dow_down_no_etfs))).
  vm_compute. reflexivity.
Defined.

(** ** Running twice against the same source *)

Lemma try_body_any_iteration data k k' t db :
  try_body (world_of data) k t db = try_body (world_of data) k' t db.
Proof. reflexivity. Qed.

Lemma history_of_inv data t start df :
  history_of data t start = Ok df ->
  exists s, strptime start = Ok s
            /\ df = filter (fun r => date_leb s (row_date r) = true) (data t).
Proof.
  unfold history_of. destruct (strptime start) as [s|e]; simpl; [|discriminate].
  intros [= <-]. eauto.
Qed.

Lemma to_sql_fixed name new db : to_sql name new db = db -> new = [].
Proof.
  unfold to_sql. intros H.
  destruct (db !! name) as [tb|] eqn:Htb.
  - assert (Hl : <[name:=Table (date_type tb) (rows tb ++ new)]> db !! name = Some tb)
      by (rewrite H; assumption).
    rewrite lookup_insert_eq in Hl. injection Hl as Hl.
    destruct tb as [ty rs]. simpl in Hl. injection Hl as Hl.
    apply (app_inv_head rs). rewrite app_nil_r. assumption.
  - assert (Hl : <[name:=Table DATE new]> db !! name = None)
      by (rewrite H; assumption).
    rewrite lookup_insert_eq in Hl. discriminate.
Qed.

Lemma normalize_nonempty w df new :
  normalize w df = Ok new -> df <> [] -> new <> [].
Proof.
  intros Hn Hdf ->. apply normalize_dates in Hn. simpl in Hn.
  destruct df; [congruence | discriminate].
Qed.

Lemma fetch_window_local w k t name db db2 :
  db !! name = db2 !! name ->
  fetch_window w k t name db = fetch_window w k t name db2.
Proof. intros H. unfold fetch_window. rewrite H. reflexivity. Qed.

(** Whether [t] is settled depends on its own table only. *)
Lemma settled_local w t db db2 :
  db !! table_name_of t = db2 !! table_name_of t ->
  settled w t db -> settled w t db2.
Proof.
  intros Hsame Hset k l db2' H.
  apply try_body_ok in H
    as (l1 & start & df & Hwin & Hh & [(_ & -> & _) | (Hdf & new & Hn & He & -> & _)]);
    [reflexivity|].
  exfalso.
  assert (Hrun : try_body w k t db
                 = (l1 ++ [saved t (length new) (table_name_of t)],
                    Ok (to_sql (table_name_of t) new db))).
  { unfold try_body. rewrite (fetch_window_local _ _ _ _ db db2 Hsame), Hwin, Hh.
    destruct df as [|r df]; [congruence|]. rewrite Hn, He. reflexivity. }
  apply Hset in Hrun. apply to_sql_fixed in Hrun.
  eapply normalize_nonempty; eassumption.
Qed.

(** After its iteration a ticker is settled: the next window starts after
    everything the source holds for it. *)
Lemma settled_after data k t db l db1 :
  ordered_source data -> dates_unique db ->
  try_body (world_of data) k t db = (l, Ok db1) ->
  settled (world_of data) t db1.
Proof.
  intros Hdata Hu H.
  pose proof (world_of_honours data Hdata) as Hw.
  pose proof (try_body_unique _ _ _ _ _ _ Hw Hu H) as Hu1.
  pose proof H as H0.
  apply try_body_ok in H
    as (l1 & start & df & Hwin & Hh & [(_ & -> & _) | (Hdf & new & Hn & He & -> & _)]).
  { intros k' l' db' H'. rewrite (try_body_any_iteration data k' k) in H'.
    rewrite H0 in H'. injection H' as _ <-. reflexivity. }
  intros k' l' db2 H'.
  apply try_body_ok in H'
    as (l1' & start' & df' & Hwin' & Hh' & [(_ & -> & _) | (Hdf' & _)]);
    [reflexivity|].
  exfalso. simpl in Hh, Hh'.
  apply history_of_inv in Hh as (s & Hs & ->).
  apply history_of_inv in Hh' as (s' & Hs' & ->).
  set (name := table_name_of t) in *.
  destruct (Hu1 name) as [_ Hvalid1].
  assert (Hstored : stored_dates (to_sql name new db) name
                    = stored_dates db name
                      ++ map row_date (filter (fun r => date_leb s (row_date r) = true)
                                         (data t))).
  { rewrite stored_dates_to_sql. destruct (decide (name = name)); [|congruence].
    rewrite (normalize_dates _ _ _ Hn). reflexivity. }
  destruct (fetch_window_inv _ _ _ _ _ _ _ Hvalid1 Hwin')
    as [[Hempty _] | (m' & d'' & Hin' & Hmax' & Hadd' & ->)].
  { rewrite Hstored in Hempty. apply app_eq_nil in Hempty as [_ Hempty].
    apply fmap_nil_inv in Hempty. congruence. }
  assert (Hvm' : valid_date m' = true).
  { rewrite Forall_forall in Hvalid1. apply Hvalid1. assumption. }
  destruct (add_one_day_next _ _ Hvm' Hadd') as (Hvd'' & Hlt' & _).
  rewrite (strptime_strftime _ Hvd'') in Hs'. injection Hs' as <-.
  (* a row of the second batch would have been in the first *)
  destruct (filter (fun r => date_leb d'' (row_date r) = true) (data t))
    as [|r rest] eqn:Hbatch; [congruence|].
  assert (Hr : r ∈ filter (fun r => date_leb d'' (row_date r) = true) (data t))
    by (rewrite Hbatch; left).
  apply list_elem_of_filter in Hr as [Hge Hr].
  destruct (filter (fun r => date_leb s (row_date r) = true) (data t))
    as [|r0 rest0] eqn:Hbatch0; [congruence|].
  assert (Hr0 : r0 ∈ filter (fun r => date_leb s (row_date r) = true) (data t))
    by (rewrite Hbatch0; left).
  pose proof Hr0 as Hr0'. apply list_elem_of_filter in Hr0' as [Hge0 _].
  rewrite Hstored in Hmax'. rewrite Forall_forall in Hmax'.
  assert (H0m : date_le (row_date r0) m').
  { apply Hmax'. apply elem_of_app. right. left. }
  unfold date_leb in Hge, Hge0. apply Z.leb_le in Hge, Hge0.
  unfold date_le, date_lt in *.
  assert (Hin1 : r ∈ r0 :: rest0).
  { rewrite <- Hbatch0. apply list_elem_of_filter. split; [|assumption].
    unfold date_leb. apply Z.leb_le. lia. }
  assert (Hrm : (date_key (row_date r) <= date_key m')%Z).
  { apply Hmax'. apply elem_of_app. right.
    apply (list_elem_of_fmap_2 row_date) in Hin1. exact Hin1. }
  lia.
Qed.

Lemma strptime_raises s e : strptime s = Raise e -> isinstance_Exception e = true.
Proof.
  unfold strptime.
  destruct (parse_year s) as [[y s1]|]; [|intros [= <-]; reflexivity].
  destruct (parse_month s1) as [[m s2]|]; [|intros [= <-]; reflexivity].
  destruct (parse_day s2) as [d|]; [|intros [= <-]; reflexivity].
  destruct (valid_date _); [discriminate | intros [= <-]; reflexivity].
Qed.

Lemma add_one_day_raises d e : add_one_day d = Raise e -> isinstance_Exception e = true.
Proof.
  unfold add_one_day.
  repeat match goal with |- context [if ?c then _ else _] => destruct c end;
    try discriminate. intros [= <-]. reflexivity.
Qed.

Lemma next_start_raises r e : next_start r = Raise e -> isinstance_Exception e = true.
Proof.
  unfold next_start.
  assert (Hd : forall d, bind (add_one_day d) (fun d' => Ok (strftime d')) = Raise e ->
                         isinstance_Exception e = true).
  { intros d. destruct (add_one_day d) as [d'|e'] eqn:Ha; simpl; [discriminate|].
    intros [= <-]. eapply add_one_day_raises; eassumption. }
  destruct r as [|d|d secs|s]; simpl.
  - intros [= <-]. reflexivity.
  - apply Hd.
  - apply Hd.
  - destruct (strptime s) as [d|e'] eqn:Hs; simpl; [apply Hd|].
    intros [= <-]. eapply strptime_raises; eassumption.
Qed.

Lemma normalize_raises w df e : normalize w df = Raise e -> exn_type e = ValueError.
Proof.
  unfold normalize.
  destruct (to_numeric _ _ (map f_Open df)) as [o|e1] eqn:Ho; simpl;
    [|intros [= <-]; eapply to_numeric_raise_kind; eassumption].
  destruct (to_numeric _ _ (map f_High df)) as [h|e1] eqn:Hh; simpl;
    [|intros [= <-]; eapply to_numeric_raise_kind; eassumption].
  destruct (to_numeric _ _ (map f_Low df)) as [l|e1] eqn:Hl; simpl;
    [|intros [= <-]; eapply to_numeric_raise_kind; eassumption].
  destruct (to_numeric _ _ (map f_Close df)) as [c|e1] eqn:Hc; simpl;
    [|intros [= <-]; eapply to_numeric_raise_kind; eassumption].
  destruct (to_numeric _ _ (map f_Volume df)) as [v|e1] eqn:Hv; simpl;
    [discriminate | intros [= <-]; eapply to_numeric_raise_kind; eassumption].
Qed.

(** Where the exception of a failing iteration comes from. *)
Lemma try_body_raise_inv w k t db l e :
  try_body w k t db = (l, Raise e) ->
  db_read_error w k = Some e
  \/ (exists r, next_start r = Raise e)
  \/ (exists start, history w k t start = Raise e)
  \/ (exists df, normalize w df = Raise e)
  \/ to_sql_error w k = Some e.
Proof.
  unfold try_body.
  destruct (fetch_window w k t (table_name_of t) db) as [l1 [start|e1]] eqn:Hwin.
  - destruct (history w k t start) as [[|r df]|e1] eqn:Hh.
    + discriminate.
    + destruct (normalize w (r :: df)) as [new|e1] eqn:Hn.
      * destruct (to_sql_error w k) as [e1|]; [|discriminate].
        intros [= _ <-]. auto 10.
      * intros [= _ <-]. right; right; right; left. eauto.
    + intros [= _ <-]. right; right; left. eauto.
  - intros [= _ <-]. unfold fetch_window in Hwin.
    destruct (db_read_error w k) as [e0|]; [injection Hwin as _ <-; auto|].
    destruct (db !! table_name_of t) as [tb|]; [|discriminate].
    right; left.
    destruct (select_max_date tb) as [|d|d secs|s] eqn:Hsel; [discriminate| | |].
    + exists (SDate d). destruct (next_start (SDate d)); [discriminate|].
      injection Hwin as _ <-. reflexivity.
    + exists (SDatetime d secs). destruct (next_start (SDatetime d secs)); [discriminate|].
      injection Hwin as _ <-. reflexivity.
    + exists (SStr s). destruct (next_start (SStr s)); [discriminate|].
      injection Hwin as _ <-. reflexivity.
Qed.

(** Against a source built by [world_of] an iteration raises nothing but
    instances of [Exception]. *)
Lemma world_of_raises data k t db l e :
  try_body (world_of data) k t db = (l, Raise e) -> isinstance_Exception e = true.
Proof.
  intros H. apply try_body_raise_inv in H as [H|[[r H]|[[start H]|[[df H]|H]]]].
  - discriminate.
  - eapply next_start_raises; eassumption.
  - simpl in H. unfold history_of in H.
    destruct (strptime start) as [s|e'] eqn:Hs; simpl in H; [discriminate|].
    injection H as <-. eapply strptime_raises; eassumption.
  - apply normalize_raises in H. unfold isinstance_Exception. rewrite H. reflexivity.
  - discriminate.
Qed.

Lemma settled_everywhere data tickers : forall k db db1 logs x,
  ordered_source data -> dates_unique db ->
  NoDup (map table_name_of tickers) ->
  fetch_loop (world_of data) k tickers db = (db1, logs, x) ->
  Forall (fun t => settled (world_of data) t db1) tickers.
Proof.
  induction tickers as [|t tickers IH]; intros k db db1 logs x Hdata Hu Hnd H;
    [constructor|].
  simpl in Hnd. apply NoDup_cons in Hnd as [Hfresh Hnd]. cbn [fetch_loop] in H.
  pose proof (world_of_honours data Hdata) as Hw.
  destruct (try_body (world_of data) k t db) as [l [dbt|e]] eqn:Hb.
  - destruct (fetch_loop (world_of data) (S k) tickers dbt) as [[db2 l2] x2] eqn:Hrest.
    injection H as <- _ _. constructor.
    + apply (settled_local _ _ dbt).
      * symmetry. eapply fetch_loop_frame; eassumption.
      * eapply settled_after; eassumption.
    + eapply IH; [assumption | | assumption | eassumption].
      eapply try_body_unique; eassumption.
  - rewrite (world_of_raises _ _ _ _ _ _ Hb) in H.
    destruct (fetch_loop (world_of data) (S k) tickers db) as [[db2 l2] x2] eqn:Hrest.
    injection H as <- _ _. constructor.
    + apply (settled_local _ _ db).
      * symmetry. eapply fetch_loop_frame; eassumption.
      * intros k' l' db' H'. rewrite (try_body_any_iteration data k' k), Hb in H'.
        discriminate.
    + eapply IH; eassumption.
Qed.

Lemma settled_loop w tickers : forall k db,
  Forall (fun t => settled w t db) tickers ->
  exists logs x, fetch_loop w k tickers db = (db, logs, x).
Proof.
  induction tickers as [|t tickers IH]; intros k db Hall; [simpl; eauto|].
  apply Forall_cons in Hall as [Ht Hall]. cbn [fetch_loop].
  destruct (try_body w k t db) as [l [db'|e]] eqn:Hb.
  - rewrite (Ht _ _ _ Hb).
    destruct (IH (S k) db Hall) as (logs & x & ->). eauto.
  - destruct (isinstance_Exception e); [|eauto].
    destruct (IH (S k) db Hall) as (logs & x & ->). eauto.
Qed.

(** X7.  Running twice against the same source stores nothing the second
    time, provided no two tickers of the list share a table: for a source
    that holds its rows in order of date and returns those dated on or
    after the requested start, the database after the second run is the
    database after the first, whatever failed on the way. *)
Theorem second_run_is_idle data ticker_list db :
  ordered_source data ->
  NoDup (map table_name_of ticker_list) ->
  dates_unique db ->
  fst (fst (fetch_historical_data (world_of data) ticker_list
              (fst (fst (fetch_historical_data (world_of data) ticker_list db)))))
  = fst (fst (fetch_historical_data (world_of data) ticker_list db)).
Proof.
  intros Hdata Hnd Hu. unfold fetch_historical_data.
  destruct (fetch_loop (world_of data) 0 ticker_list db) as [[db1 logs] x] eqn:H1.
  simpl.
  pose proof (settled_everywhere _ _ _ _ _ _ _ Hdata Hu Hnd H1) as Hall.
  destruct (settled_loop _ _ 0 _ Hall) as (logs2 & x2 & ->). reflexivity.
Qed.

Lemma aapl_data_ordered : ordered_source aapl_data.
Proof.
  intros t. unfold aapl_data. destruct (bool_decide (t = "AAPL"));
    simpl; split; repeat constructor; unfold date_lt; simpl; lia.
Qed.

Lemma second_run_is_idle_witness :
  fst (fst (fetch_historical_data (world_of aapl_data) ["AAPL"; "MSFT"]
              (fst (fst (fetch_historical_data (world_of aapl_data) ["AAPL"; "MSFT"] ∅)))))
  = fst (fst (fetch_historical_data (world_of aapl_data) ["AAPL"; "MSFT"] ∅)).
Proof.
  apply (second_run_is_idle aapl_data ["AAPL"; "MSFT"] ∅).
  - exact aapl_data_ordered.
  - vm_compute. repeat constructor; intros H;
      repeat (apply elem_of_cons in H as [H|H]; [discriminate|]); inversion H.
  - exact empty_dates_unique.
Defined.

(** Why the tables must be distinct: BRK-B fails in the first run on a
    row it cannot read, BRK.B stores a later row in the table they share,
    and in the second run the window of BRK-B starts after the bad row, so
    a row is stored although the source did not change. *)
Example shared_table_second_run :
  let db1 := fst (fst (fetch_historical_data (world_of brk_bad_data)
                         ["BRK-B"; "BRK.B"] ∅)) in
  let db2 := fst (fst (fetch_historical_data (world_of brk_bad_data)
                         ["BRK-B"; "BRK.B"] db1)) in
  stored_dates db1 "BRK_B" = [MkDate 2024 1 4]
  /\ stored_dates db2 "BRK_B" = [MkDate 2024 1 4; MkDate 2024 1 10].
Proof. vm_compute. split; reflexivity. Qed.


(* ===================================================================== *)
(** * More on app.py                                                      *)
(* ===================================================================== *)

(** ** Launches and responses *)














(** ** Progress *)

Lemma in_lock_enabled tok s j u :
  threads s !! j = Some u -> in_lock u = true ->
  exists s', step_thread tok j (Ok tt) s = Some s'.
Proof.
  intros Hj Hu. unfold step_thread. rewrite Hj.
  destruct u as [[]|p []]; simpl in *; try discriminate; eauto.
  destruct (task_running s); eauto.
Qed.

(** X10.  The process never deadlocks: in every reachable state in which
    some thread has a statement left, some thread can execute one.  A
    thread waiting for the lock waits for a thread that can move. *)
Theorem never_stuck tok s i t :
  reachable tok s ->
  threads s !! i = Some t -> terminal t = false ->
  exists j o s', step_thread tok j o s = Some s'.
Proof.
  intros Hreach Hi Ht. pose proof (inv_reachable _ _ Hreach) as HI.
  assert (Hholder : task_lock s = true ->
                    exists j o s', step_thread tok j o s = Some s').
  { intros Hl.
    assert (H1 : 1 <= count in_lock (threads s)).
    { rewrite (inv_lock _ HI), Hl. simpl. lia. }
    destruct (count_witness _ _ H1) as (j & u & Hj & Hu).
    destruct (in_lock_enabled tok s j u Hj Hu) as [s' Hs']. eauto. }
  assert (Hself : (exists s', step_thread tok i (Ok tt) s = Some s') ->
                  exists j o s', step_thread tok j o s = Some s') by (intros [s' H]; eauto).
  destruct t as [pc|p pc]; destruct pc; simpl in Ht; try discriminate;
    try (apply Hself; unfold step_thread; rewrite Hi; simpl; eauto; fail).
  - apply Hself. unfold step_thread. rewrite Hi. simpl.
    destruct (require_token tok auth_header); eauto.
  - destruct (task_lock s) eqn:Hl; [auto|].
    apply Hself. unfold step_thread. rewrite Hi. simpl. rewrite Hl. eauto.
  - apply Hself. unfold step_thread. rewrite Hi. simpl.
    destruct (task_running s); eauto.
  - destruct (task_lock s) eqn:Hl; [auto|].
    apply Hself. unfold step_thread. rewrite Hi. simpl. rewrite Hl. eauto.
Qed.

Lemma never_stuck_witness :
  exists j o s', step_thread demo_token j o busy_state = Some s'.
Proof.
  apply (never_stuck demo_token busy_state 2 (Handler H_acquire)).
  - eapply (run_reachable _ busy_schedule init); [apply rtc_refl | vm_compute; reflexivity].
  - vm_compute. reflexivity.
  - reflexivity.
Defined.

(** ** The accepting path *)





(** ** Headers and tokens *)

Lemma has_space_cons c s :
  has_space (String c s) = isspace c || has_space s.
Proof.
  unfold has_space. cbn [forall_chars]. rewrite negb_andb, negb_involutive. reflexivity.
Qed.

Lemma has_space_snoc word c :
  has_space (word ++ String c "")%string = has_space word || isspace c.
Proof.
  induction word as [|d word IH].
  - cbv [String.append]. rewrite has_space_cons. unfold has_space at 1 2. simpl.
    apply orb_false_r.
  - change (String d word ++ String c "")%string
      with (String d (word ++ String c "")%string).
    rewrite !has_space_cons, IH. apply orb_assoc.
Qed.

(** Every word [split] returns is non-empty and free of white space. *)
Lemma split_from_words s : forall word,
  has_space word = false ->
  Forall (fun w => w <> "" /\ has_space w = false) (split_from word s).
Proof.
  induction s as [|c s IH]; intros word Hw; cbn [split_from].
  - destruct (decide (word = "")); [constructor|].
    constructor; [auto | constructor].
  - destruct (isspace c) eqn:Hc.
    + destruct (decide (word = "")).
      * apply IH. reflexivity.
      * constructor; [auto|]. apply IH. reflexivity.
    + apply IH. rewrite has_space_snoc, Hw, Hc. reflexivity.
Qed.

(** X12.  A configured token that is empty or contains white space can
    never be presented: whatever the Authorization header, the request is
    answered 401. *)
Theorem unusable_token tok h :
  tok = "" \/ has_space tok = true ->
  exists l r, require_token tok h = Rejected l r /\ status r = 401%Z.
Proof.
  intros Hbad. destruct (require_token tok h) as [l r|] eqn:Hrt.
  - exists l, r. split; [reflexivity|]. eapply require_token_rejected; eassumption.
  - exfalso. apply require_token_passed in Hrt as (x & a & b & -> & Hs & _ & ->).
    pose proof (split_from_words x "" eq_refl) as Hwords.
    unfold split in Hs. rewrite Hs in Hwords.
    apply Forall_cons in Hwords as [_ Hwords].
    apply Forall_cons in Hwords as [[Hne Hsp] _].
    destruct Hbad as [->|Hbad]; congruence.
Qed.

Lemma unusable_token_witness :
  exists l r,
    require_token "two words" (Some "Bearer two words") = Rejected l r
    /\ status r = 401%Z.
Proof.
  apply (unusable_token "two words" (Some "Bearer two words")).
  right. reflexivity.
Defined.

Lemma string_app_assoc (a b c : string) :
  ((a ++ b) ++ c)%string = (a ++ (b ++ c))%string.
Proof.
  induction a as [|x a IH]; [reflexivity|].
  change (String x ((a ++ b) ++ c)%string = String x (a ++ (b ++ c))%string).
  rewrite IH. reflexivity.
Qed.

Lemma string_app_cons x (a b : string) :
  (String x a ++ b)%string = String x (a ++ b)%string.
Proof. reflexivity. Qed.

Lemma string_app_nil_l (a : string) : ("" ++ a)%string = a.
Proof. reflexivity. Qed.

Lemma string_app_nil_r (a : string) : (a ++ "")%string = a.
Proof.
  induction a as [|x a IH]; [reflexivity|]. rewrite string_app_cons, IH. reflexivity.
Qed.

(** A run of characters that are not white space joins the current word. *)
Lemma split_from_word u : forall word s,
  has_space u = false ->
  split_from word (u ++ s)%string = split_from (word ++ u)%string s.
Proof.
  induction u as [|c u IH]; intros word s Hu.
  - rewrite string_app_nil_l, string_app_nil_r. reflexivity.
  - rewrite has_space_cons in Hu. apply orb_false_iff in Hu as [Hc Hu].
    rewrite string_app_cons. cbn [split_from]. rewrite Hc.
    rewrite IH by assumption. rewrite string_app_assoc. reflexivity.
Qed.

(** White space before the first word is skipped. *)
Lemma split_from_blank sp : forall s,
  all_space sp = true -> split_from "" (sp ++ s)%string = split_from "" s.
Proof.
  unfold all_space. induction sp as [|c sp IH]; intros s Hsp; [reflexivity|].
  cbn [forall_chars] in Hsp. apply andb_true_iff in Hsp as [Hc Hsp].
  rewrite string_app_cons. cbn [split_from]. rewrite Hc.
  destruct (decide ("" = "")); [|congruence]. apply IH. assumption.
Qed.

(** White space after a word ends the word. *)
Lemma split_from_gap sp word s :
  all_space sp = true -> sp <> "" -> word <> "" ->
  split_from word (sp ++ s)%string = word :: split_from "" s.
Proof.
  intros Hsp Hne Hw. destruct sp as [|c sp]; [congruence|].
  unfold all_space in Hsp. cbn [forall_chars] in Hsp.
  apply andb_true_iff in Hsp as [Hc Hsp].
  rewrite string_app_cons. cbn [split_from]. rewrite Hc.
  destruct (decide (word = "")); [congruence|].
  f_equal. apply split_from_blank. assumption.
Qed.

Lemma split_from_tail sp word :
  all_space sp = true -> word <> "" -> split_from word sp = [word].
Proof.
  intros Hsp Hw. destruct sp as [|c sp].
  - cbn [split_from]. destruct (decide (word = "")); [congruence | reflexivity].
  - rewrite <- (string_app_nil_r (String c sp)).
    rewrite split_from_gap by (assumption || discriminate). reflexivity.
Qed.

Lemma isspace_lower_char c : isspace (lower_char c) = isspace c.
Proof.
  destruct c as [[] [] [] [] [] [] [] []]; vm_compute; reflexivity.
Qed.

Lemma has_space_lower s : has_space (lower s) = has_space s.
Proof.
  induction s as [|c s IH]; [reflexivity|].
  cbn [lower]. rewrite !has_space_cons, isspace_lower_char, IH. reflexivity.
Qed.

(** X13.  The credential in its usual form passes: the word "bearer" in
    any letter case, white space, and the configured token, with any white
    space before and after, provided the token is not empty and contains
    no white space. *)
Theorem bearer_header_passes tok auth_type pre mid post :
  tok <> "" -> has_space tok = false ->
  lower auth_type = "bearer" ->
  all_space pre = true -> all_space mid = true -> mid <> "" -> all_space post = true ->
  require_token tok (Some (pre ++ auth_type ++ mid ++ tok ++ post)%string) = Passed.
Proof.
  intros Htok Hsp Hlow Hpre Hmid Hmne Hpost.
  assert (Hty : auth_type <> "" /\ has_space auth_type = false).
  { split.
    - intros ->. discriminate.
    - rewrite <- has_space_lower, Hlow. reflexivity. }
  destruct Hty as [Hne Hnosp].
  apply require_token_passed.
  exists (pre ++ auth_type ++ mid ++ tok ++ post)%string, auth_type, tok.
  split; [reflexivity|]. split; [|auto].
  unfold split.
  rewrite split_from_blank by assumption.
  rewrite split_from_word by assumption. rewrite string_app_nil_l.
  rewrite split_from_gap by assumption.
  rewrite split_from_word by assumption. rewrite string_app_nil_l.
  rewrite split_from_tail by assumption. reflexivity.
Qed.

Lemma bearer_header_passes_witness :
  require_token demo_token
    (Some (" " ++ "BEARER" ++ "  " ++ demo_token ++ " ")%string) = Passed.
Proof.
  apply (bearer_header_passes demo_token "BEARER" " " "  " " ");
    solve [reflexivity | discriminate].
Defined.

(* ===================================================================== *)
(** * get_data.py as a script                                             *)
(* ===================================================================== *)

Lemma main_database sv si w db :
  fst (fst (main sv si w db)) = db
  \/ exists logs tickers,
       fetch_all_tickers si = (logs, Ok tickers)
       /\ fst (fst (main sv si w db))
          = fst (fst (fetch_historical_data w tickers db)).
Proof.
  unfold main. destruct (get_db_engine sv) as [l0 [[[]|]|e]]; simpl; auto.
  destruct (fetch_all_tickers si) as [l [tickers|e]] eqn:Hf; simpl; auto.
  destruct tickers as [|t tickers]; simpl; auto.
  right. exists l, (t :: tickers). split; [reflexivity|].
  destruct (fetch_historical_data w (t :: tickers) db) as [[db' l2] [e|]]; reflexivity.
Qed.

(** X14.  The script writes only to tables of the discovered universe:
    a table whose name is not the table name of a gathered candidate that
    passes the filter is left as it was (and is not created), whatever
    the server, the listings and the price source do. *)
Theorem main_touches_universe_only sv si w db name :
  (forall t, t ∈ collected si -> valid_ticker t = true -> name <> table_name_of t) ->
  fst (fst (main sv si w db)) !! name = db !! name.
Proof.
  intros Hname.
  destruct (main_database sv si w db) as [-> | (logs & tickers & Hf & ->)];
    [reflexivity|].
  unfold fetch_historical_data.
  destruct (fetch_loop w 0 tickers db) as [[db' l] x] eqn:Hloop. simpl.
  eapply fetch_loop_frame; [eassumption|].
  intros Hin. apply list_elem_of_fmap in Hin as (t & -> & Ht).
  destruct (universe_sorted_unique _ _ _ Hf) as (_ & _ & Hiff & _).
  apply Hiff in Ht as [Hc Hv]. eapply Hname; eauto.
Qed.

Lemma main_touches_universe_only_witness :
  fst (fst (main server_up dow_down_no_etfs (world_of aapl_data) ∅)) !! "MSFT"
  = (∅ : database) !! "MSFT".
Proof.
  apply (main_touches_universe_only server_up dow_down_no_etfs (world_of aapl_data) ∅ "MSFT").
  intros t Ht Hv. vm_compute in Ht.
  repeat (apply elem_of_cons in Ht as [->|Ht]; [discriminate|]). inversion Ht.
Defined.

Lemma fetch_all_tickers_returns_ok si :
  (forall e, snd (index_block si) = Some e -> isinstance_Exception e = true) ->
  (forall e, tickers_etfs si = Raise e -> isinstance_Exception e = true) ->
  exists logs out, fetch_all_tickers si = (logs, Ok out).
Proof.
  intros Hidx Hetf. unfold fetch_all_tickers.
  destruct (index_block si) as [tickers [e|]]; simpl in *;
    [rewrite (Hidx e eq_refl)|];
    (destruct (tickers_etfs si) as [l4|e4]; [eauto|];
     destruct (isinstance_AttributeError e4); [eauto|];
     rewrite (Hetf e4 eq_refl); eauto).
Qed.

(** X15.  When the server answers but no gathered candidate passes the
    filter (every listing failed with an [Exception], or returned nothing
    usable), the script logs a warning and ends: the database is left as
    it was and the price source is not used. *)
Theorem main_without_tickers sv si db :
  create_engine sv = None -> connect sv = None ->
  (forall e, snd (index_block si) = Some e -> isinstance_Exception e = true) ->
  (forall e, tickers_etfs si = Raise e -> isinstance_Exception e = true) ->
  (forall t, t ∈ collected si -> valid_ticker t = false) ->
  exists logs,
    forall w', main sv si w' db
               = (db, logs ++ [Log WARNING "No ticker found, the script ends" []], None).
Proof.
  intros Hc Hn Hidx Hetf Hnone. unfold main, get_db_engine. rewrite Hc, Hn. simpl.
  destruct (fetch_all_tickers_returns_ok si Hidx Hetf) as (logs & out & Hf).
  destruct (universe_sorted_unique _ _ _ Hf) as (_ & _ & Hiff & _).
  rewrite Hf. simpl.
  destruct out as [|t out].
  - exists (Log INFO "Database connection successful" []
            :: Log INFO "--- full mode ---" [] :: logs). reflexivity.
  - exfalso. assert (Ht : t ∈ t :: out) by left.
    apply Hiff in Ht as [Hin Hv]. rewrite (Hnone t Hin) in Hv. discriminate.
Qed.

Lemma main_without_tickers_witness :
  exists logs,
    forall w', main server_up all_listings_down w' aapl_db
               = (aapl_db, logs ++ [Log WARNING "No ticker found, the script ends" []],
                  None).
Proof.
  apply (main_without_tickers server_up all_listings_down aapl_db).
  - reflexivity.
  - reflexivity.
  - intros e H. vm_compute in H. injection H as <-. reflexivity.
  - intros e H. vm_compute in H. injection H as <-. reflexivity.
  - intros t Ht. vm_compute in Ht. inversion Ht.
Defined.

(** X16.  When creating the engine or the test connection raises an
    [Exception], the script logs the failure and ends: the database is
    left as it was, whatever the listings and the price source would
    return. *)
Theorem main_without_engine sv si w db e :
  create_engine sv = Some e \/ (create_engine sv = None /\ connect sv = Some e) ->
  isinstance_Exception e = true ->
  main sv si w db
  = (db, [Log ERROR "Cannot connect to the database: %s" [Str (exn_msg e)];
          Log ERROR "No database engine, the script ends" []], None).
Proof.
  intros He Hexc. unfold main, get_db_engine.
  destruct He as [-> | [-> ->]]; rewrite Hexc; reflexivity.
Qed.

Lemma main_without_engine_witness :
  main server_down dow_down_no_etfs (world_of aapl_data) aapl_db
  = (aapl_db,
     [Log ERROR "Cannot connect to the database: %s" [Str "connection refused"];
      Log ERROR "No database engine, the script ends" []], None).
Proof.
  apply (main_without_engine server_down dow_down_no_etfs (world_of aapl_data) aapl_db
           (Exn (OtherException "OperationalError") "connection refused")).
  - right. split; reflexivity.
  - reflexivity.
Defined.

(** ** process_data.py *)

Lemma omap_step {A B} (f : A -> option B) (x : A) (l : list A) :
  omap f (x :: l) = match f x with Some y => y :: omap f l | None => omap f l end.
Proof. reflexivity. Qed.

Lemma to_numeric_coerce_total parse l :
  to_numeric parse errors_coerce l
  = Ok (map (fun x => match x with
                      | PyNumber q => Some q
                      | PyNone => None
                      | PyStr s => parse s
                      end) l).
Proof.
  induction l as [|x l IH]; [reflexivity|].
  simpl. rewrite IH. destruct x as [q|s|]; simpl; try reflexivity.
  destruct (parse s); reflexivity.
Qed.

Lemma lookup_col_Some col l x :
  lookup_col col l = Some x -> col ∈ map fst l.
Proof.
  induction l as [|[c y] l IH]; simpl; [discriminate|].
  case_bool_decide as Hc.
  - intros _. subst. left.
  - intros H. right. auto.
Qed.

Lemma lookup_col_None col l :
  lookup_col col l = None <-> col ∉ map fst l.
Proof.
  induction l as [|[c y] l IH]; simpl.
  - split; [intros _ H; inversion H|reflexivity].
  - case_bool_decide as Hc.
    + subst. split; [discriminate|]. intros H. exfalso. apply H. left.
    + rewrite IH. rewrite not_elem_of_cons. split; [auto|tauto].
Qed.

Lemma lookup_col_elem col l :
  col ∈ map fst l -> exists x, lookup_col col l = Some x.
Proof.
  intros H. destruct (lookup_col col l) as [x|] eqn:E; [eauto|].
  apply lookup_col_None in E. contradiction.
Qed.

Lemma lookup_col_map (f : string -> series -> series) col l :
  lookup_col col (map (fun cx => (fst cx, f (fst cx) (snd cx))) l)
  = f col <$> lookup_col col l.
Proof.
  induction l as [|[c y] l IH]; simpl; [reflexivity|].
  case_bool_decide; subst; [reflexivity|exact IH].
Qed.

Lemma set_col_names col x l :
  col ∈ map fst l -> map fst (set_col col x l) = map fst l.
Proof.
  induction l as [|[c y] l IH]; simpl.
  - intros H. inversion H.
  - intros H. case_bool_decide as Hc; simpl; [reflexivity|].
    f_equal. apply IH. apply elem_of_cons in H as [H|H]; [congruence|exact H].
Qed.

(** Replacing a column of a frame with distinct names changes that
    column only. *)
Lemma set_col_map col x l :
  NoDup (map fst l) -> col ∈ map fst l ->
  set_col col x l
  = map (fun cx => (fst cx, if bool_decide (fst cx = col) then x else snd cx)) l.
Proof.
  induction l as [|[c y] l IH]; simpl.
  - intros _ H. inversion H.
  - intros Hnd H. apply NoDup_cons in Hnd as [Hc Hnd].
    case_bool_decide as E; simpl.
    + subst. f_equal. clear IH H.
      induction l as [|[c' y'] l IH]; simpl; [reflexivity|].
      simpl in Hc. apply not_elem_of_cons in Hc as [Hne Hc].
      case_bool_decide; [congruence|]. f_equal. apply IH; [exact Hc|].
      simpl in Hnd. apply NoDup_cons in Hnd as [_ Hnd]. exact Hnd.
    + f_equal. apply IH; [exact Hnd|].
      apply elem_of_cons in H as [H|H]; [congruence|exact H].
Qed.

Lemma select_names l names d :
  select l names = Ok d -> map fst d = names.
Proof.
  revert d. induction names as [|n names IH]; simpl; intros d.
  - intros [= <-]. reflexivity.
  - destruct (lookup_col n l) as [x|]; [|discriminate].
    destruct (select l names) as [r|e]; simpl; [|discriminate].
    intros [= <-]. simpl. f_equal. apply IH. reflexivity.
Qed.

(** Selecting names that are all there never raises, and picks each
    column by its name. *)
Lemma select_present l names :
  Forall (fun n => n ∈ map fst l) names ->
  select l names = Ok (omap (fun n => (fun x => (n, x)) <$> lookup_col n l) names).
Proof.
  induction 1 as [|n names Hn _ IH]; [reflexivity|].
  simpl select. destruct (lookup_col_elem _ _ Hn) as [x Hx]. rewrite Hx, IH.
  rewrite omap_step, Hx. reflexivity.
Qed.

Lemma select_ext l l' names :
  (forall n, n ∈ names -> lookup_col n l = lookup_col n l') ->
  select l names = select l' names.
Proof.
  induction names as [|n names IH]; intros H; [reflexivity|].
  simpl. rewrite (H n) by left. rewrite IH; [reflexivity|].
  intros m Hm. apply H. right. exact Hm.
Qed.

(** Selecting the columns of a frame by its own names gives the frame. *)
Lemma select_self l :
  NoDup (map fst l) -> select l (map fst l) = Ok l.
Proof.
  induction l as [|[c x] l IH]; [reflexivity|].
  simpl. intros Hnd. apply NoDup_cons in Hnd as [Hc Hnd].
  rewrite bool_decide_true by reflexivity.
  rewrite (select_ext ((c, x) :: l) l).
  - rewrite (IH Hnd). reflexivity.
  - intros n Hn. simpl. case_bool_decide; [subst; contradiction|reflexivity].
Qed.

Lemma omap_filter_pick (f : string -> series -> series) l (names : list string) :
  omap (fun n => (fun x => (n, f n x)) <$> lookup_col n l)
       (filter (fun n => bool_decide (n ∈ map fst l) = true) names)
  = omap (fun n => (fun x => (n, f n x)) <$> lookup_col n l) names.
Proof.
  induction names as [|n names IH]; [reflexivity|].
  rewrite filter_cons. destruct (decide (bool_decide (n ∈ map fst l) = true)) as [H|H].
  - rewrite !omap_step. rewrite IH. reflexivity.
  - rewrite omap_step, IH.
    apply not_true_is_false in H. apply bool_decide_eq_false in H.
    apply lookup_col_None in H. rewrite H. reflexivity.
Qed.

Lemma lookup_col_NoDup c y l :
  NoDup (map fst l) -> (c, y) ∈ l -> lookup_col c l = Some y.
Proof.
  induction l as [|[c' y'] l IH]; simpl; intros Hnd Hin.
  - inversion Hin.
  - apply NoDup_cons in Hnd as [Hc Hnd].
    apply elem_of_cons in Hin as [[= -> ->]|Hin].
    + rewrite bool_decide_true by reflexivity. reflexivity.
    + case_bool_decide as E; [|auto].
      subst. exfalso. apply Hc. apply list_elem_of_fmap. exists (c, y). auto.
Qed.

Lemma on_columns_names conv cols l :
  map fst (map (on_columns conv cols) l) = map fst l.
Proof. rewrite map_map. reflexivity. Qed.

Lemma on_columns_nil conv l : map (on_columns conv []) l = l.
Proof.
  induction l as [|[c y] l IH]; [reflexivity|].
  simpl. rewrite IH. reflexivity.
Qed.

(** One round of a conversion loop whose column is there. *)
Lemma on_columns_set conv col rest x l :
  NoDup (map fst l) -> lookup_col col l = Some x -> col ∉ rest ->
  map (on_columns conv rest) (set_col col (conv x) l)
  = map (on_columns conv (col :: rest)) l.
Proof.
  intros Hnd Hx Hrest.
  rewrite set_col_map by eauto using lookup_col_Some.
  rewrite map_map. apply map_ext_in. intros [c y] Hin. apply list_elem_of_In in Hin.
  unfold on_columns. simpl. f_equal.
  destruct (decide (c = col)) as [E|E].
  - subst c. rewrite (lookup_col_NoDup _ _ _ Hnd Hin) in Hx. injection Hx as ->.
    rewrite (bool_decide_true (col = col)) by reflexivity.
    rewrite bool_decide_false by exact Hrest.
    rewrite bool_decide_true by left. reflexivity.
  - rewrite (bool_decide_false (c = col)) by exact E.
    destruct (decide (c ∈ rest)) as [H|H].
    + rewrite !bool_decide_true; [reflexivity|right; exact H|exact H].
    + rewrite !bool_decide_false; [reflexivity| |exact H].
      rewrite not_elem_of_cons. auto.
Qed.

(** One round of a conversion loop whose column is missing. *)
Lemma on_columns_skip conv col rest l :
  lookup_col col l = None ->
  map (on_columns conv rest) l = map (on_columns conv (col :: rest)) l.
Proof.
  intros Hx. apply lookup_col_None in Hx.
  apply map_ext_in. intros [c y] Hin. apply list_elem_of_In in Hin.
  unfold on_columns. simpl. f_equal.
  assert (c <> col).
  { intros ->. apply Hx. apply list_elem_of_fmap. exists (col, y). auto. }
  destruct (decide (c ∈ rest)) as [H'|H'].
  - rewrite !bool_decide_true; [reflexivity|right; exact H'|exact H'].
  - rewrite !bool_decide_false; [reflexivity| |exact H'].
    rewrite not_elem_of_cons. auto.
Qed.

(** The loop of lines 88-90 converts exactly the listed columns, once. *)
Lemma convert_dates_spec fs cols df :
  NoDup cols -> NoDup (columns df) ->
  convert_dates fs cols df
  = Frame (nrows df) (map (on_columns (convert_timestamp_to_date fs) cols) (data df)).
Proof.
  intros Hcols. revert df. induction Hcols as [|col rest Hcol Hrest IH]; intros df Hnd.
  - simpl. rewrite on_columns_nil. destruct df; reflexivity.
  - simpl. unfold getitem. destruct (lookup_col col (data df)) as [x|] eqn:Hx.
    + rewrite IH.
      * simpl. f_equal. apply on_columns_set; assumption.
      * unfold columns, setitem. simpl.
        rewrite set_col_names by eauto using lookup_col_Some. exact Hnd.
    + rewrite IH by exact Hnd. f_equal. apply on_columns_skip. exact Hx.
Qed.

Lemma to_numeric_series_ok fs x : to_numeric_series fs x = Ok (coerced fs x).
Proof.
  destruct x as [l|l|l]; simpl; try reflexivity.
  rewrite to_numeric_coerce_total. reflexivity.
Qed.

(** The loop of lines 103-105 never raises, and converts exactly the
    listed columns, once. *)
Lemma convert_numeric_spec fs cols df :
  NoDup cols -> NoDup (columns df) ->
  convert_numeric fs cols df
  = Ok (Frame (nrows df) (map (on_columns (coerced fs) cols) (data df))).
Proof.
  intros Hcols. revert df. induction Hcols as [|col rest Hcol Hrest IH]; intros df Hnd.
  - simpl. rewrite on_columns_nil. destruct df; reflexivity.
  - simpl. unfold getitem. destruct (lookup_col col (data df)) as [x|] eqn:Hx.
    + rewrite to_numeric_series_ok. simpl. rewrite IH.
      * simpl. do 2 f_equal. apply on_columns_set; assumption.
      * unfold columns, setitem. simpl.
        rewrite set_col_names by eauto using lookup_col_Some. exact Hnd.
    + rewrite IH by exact Hnd. do 2 f_equal. apply on_columns_skip. exact Hx.
Qed.

Lemma keep_NoDup : NoDup COLUMNS_TO_KEEP.
Proof. apply (bool_decide_unpack _). vm_compute. exact I. Qed.

Lemma date_columns_NoDup : NoDup date_columns.
Proof. apply (bool_decide_unpack _). vm_compute. exact I. Qed.

Lemma numeric_cols_NoDup : NoDup numeric_cols.
Proof. apply (bool_decide_unpack _). vm_compute. exact I. Qed.

(** No column is both a date column and a numeric column. *)
Lemma date_not_numeric col : col ∈ date_columns -> col ∉ numeric_cols.
Proof.
  assert (H : Forall (fun c => c ∉ numeric_cols) date_columns)
    by (apply (bool_decide_unpack _); vm_compute; exact I).
  intros Hc. rewrite Forall_forall in H. apply H. exact Hc.
Qed.

Lemma map_pick (g : string -> series -> series) l (names : list string) :
  map (fun cx => (fst cx, g (fst cx) (snd cx)))
      (omap (fun n => (fun x => (n, x)) <$> lookup_col n l) names)
  = omap (fun n => (fun x => (n, g n x)) <$> lookup_col n l) names.
Proof.
  induction names as [|n names IH]; [reflexivity|].
  rewrite !omap_step. destruct (lookup_col n l) as [x|]; simpl; [|exact IH].
  f_equal. exact IH.
Qed.

Lemma lookup_pick (g : string -> series -> series) l (names : list string) col :
  lookup_col col (omap (fun n => (fun x => (n, g n x)) <$> lookup_col n l) names)
  = if bool_decide (col ∈ names) then g col <$> lookup_col col l else None.
Proof.
  induction names as [|n names IH].
  - rewrite bool_decide_false by (intros H; inversion H). reflexivity.
  - rewrite omap_step. destruct (decide (n = col)) as [->|Hn].
    + rewrite (bool_decide_true (col ∈ col :: names)) by left.
      destruct (lookup_col col l) as [x|] eqn:Hx; simpl.
      * rewrite bool_decide_true by reflexivity. reflexivity.
      * rewrite IH. destruct (bool_decide (col ∈ names)); reflexivity.
    + assert (Hiff : bool_decide (col ∈ n :: names) = bool_decide (col ∈ names)).
      { apply bool_decide_ext. rewrite elem_of_cons. split; [intros [?|?]|]; auto.
        congruence. }
      rewrite Hiff. destruct (lookup_col n l) as [x|]; simpl; [|exact IH].
      rewrite bool_decide_false by exact Hn. exact IH.
Qed.

(** The two conversions, one after the other, amount to [cleaned]. *)
Lemma on_columns_cleaned fs cx :
  on_columns (coerced fs) numeric_cols
    (on_columns (convert_timestamp_to_date fs) date_columns cx)
  = (fst cx, cleaned fs (fst cx) (snd cx)).
Proof.
  destruct cx as [c x]. unfold on_columns, cleaned, convert_timestamp_to_date. simpl.
  f_equal. destruct (decide (c ∈ date_columns)) as [H|H].
  - rewrite (bool_decide_true (c ∈ date_columns)) by exact H.
    rewrite bool_decide_false by (apply date_not_numeric; exact H). reflexivity.
  - rewrite (bool_decide_false (c ∈ date_columns)) by exact H. reflexivity.
Qed.

(** The frame that [process_data] hands to [to_csv]. *)
Lemma process_data_reads fs source_path dest_path df :
  path_exists fs = true -> read_csv fs = Ok df ->
  let out :=
    Frame (nrows df)
      (omap (fun n => (fun x => (n, cleaned fs n x)) <$> lookup_col n (data df))
            COLUMNS_TO_KEEP) in
  columns out = filter (fun col => has_column df col = true) COLUMNS_TO_KEEP
  /\ exists logs,
       process_data fs source_path dest_path
       = match to_csv_error fs with
         | Some e => (logs, None, Some e)
         | None => (logs ++ [Log INFO "Data processing complete." []], Some out, None)
         end.
Proof.
  intros Hex Hread. cbv zeta.
  unfold process_data. rewrite Hex, Hread. cbn [negb]. cbv iota zeta.
  pose proof keep_NoDup as Hkeep.
  remember (filter (fun col => has_column df col = true) COLUMNS_TO_KEEP)
    as available eqn:Hav.
  remember (filter (fun col => has_column df col = false) COLUMNS_TO_KEEP)
    as missing_columns eqn:Hmiss.
  remember (omap (fun n => (fun x => (n, cleaned fs n x)) <$> lookup_col n (data df))
                 COLUMNS_TO_KEEP) as dout eqn:Hdout.
  remember (omap (fun n => (fun x => (n, x)) <$> lookup_col n (data df))
                 COLUMNS_TO_KEEP) as d0 eqn:Hd0.
  assert (Hsel : select (data df) available = Ok d0).
  { subst available d0. rewrite select_present.
    - f_equal. apply (omap_filter_pick (fun _ x => x)).
    - apply Forall_forall. intros n Hn. apply list_elem_of_filter in Hn as [Hn _].
      apply bool_decide_eq_true in Hn. exact Hn. }
  assert (Hnd : NoDup available) by (subst available; apply NoDup_filter, Hkeep).
  assert (Hout : dout
                 = map (on_columns (coerced fs) numeric_cols)
                     (map (on_columns (convert_timestamp_to_date fs) date_columns) d0)).
  { subst dout d0. rewrite <- (map_pick (cleaned fs)). rewrite map_map.
    apply map_ext. intros cx. symmetry. apply on_columns_cleaned. }
  clear Hav Hmiss Hdout Hd0 Hkeep.
  pose proof (select_names _ _ _ Hsel) as Hnames.
  assert (Hcols : map fst dout = available).
  { rewrite Hout, !on_columns_names. exact Hnames. }
  split; [exact Hcols|].
  unfold getitem_list at 1. rewrite Hsel. cbn [bind]. cbv iota.
  rewrite convert_dates_spec
    by (try apply date_columns_NoDup; unfold columns; cbn [data]; rewrite Hnames;
        exact Hnd).
  rewrite convert_numeric_spec
    by (try apply numeric_cols_NoDup; unfold columns; cbn [data];
        rewrite on_columns_names, Hnames; exact Hnd).
  cbv iota. unfold getitem_list. cbn [data nrows]. rewrite <- Hout.
  assert (Hself : select dout available = Ok dout).
  { rewrite <- Hcols. apply select_self. rewrite Hcols. exact Hnd. }
  rewrite Hself. cbn [bind]. cbv iota.
  destruct (to_csv_error fs); eexists; reflexivity.
Qed.

Lemma lookup_col_In c x l : lookup_col c l = Some x -> (c, x) ∈ l.
Proof.
  induction l as [|[c' y] l IH]; simpl; [discriminate|].
  case_bool_decide as E.
  - intros [= ->]. subst. left.
  - intros H. right. auto.
Qed.

Lemma cleaned_len fs col x :
  (forall y, length (to_datetime fs y) = series_len y) ->
  series_len (cleaned fs col x) = series_len x.
Proof.
  intros Hlen. unfold cleaned.
  destruct (bool_decide (col ∈ date_columns)); [apply Hlen|].
  destruct (bool_decide (col ∈ numeric_cols)); [|reflexivity].
  destruct x; simpl; rewrite ?length_map; reflexivity.
Qed.

Lemma cleaned_aligned fs k l (names : list string) :
  (forall y, length (to_datetime fs y) = series_len y) ->
  Forall (fun cx => series_len (snd cx) = k) l ->
  Forall (fun cx => series_len (snd cx) = k)
    (omap (fun n => (fun x => (n, cleaned fs n x)) <$> lookup_col n l) names).
Proof.
  intros Hlen Hal. rewrite Forall_forall in Hal.
  induction names as [|n names IH]; [constructor|].
  rewrite omap_step. destruct (lookup_col n l) as [x|] eqn:Hx; [|exact IH].
  constructor; [|exact IH].
  cbn [snd]. rewrite cleaned_len by exact Hlen.
  apply (Hal (n, x)). apply lookup_col_In. exact Hx.
Qed.

(** X17.  When the source file is read and the result can be written,
    [process_data] writes a frame that holds exactly the desired columns
    the source has, in the order of [COLUMNS_TO_KEEP], with as many rows as
    the source; if pandas' date conversion keeps the length of a column,
    every written column is as long as the index. *)
Theorem cleaned_schema fs source_path dest_path df :
  path_exists fs = true -> read_csv fs = Ok df -> NoDup (columns df) ->
  to_csv_error fs = None ->
  exists logs out,
    process_data fs source_path dest_path = (logs, Some out, None)
    /\ columns out = filter (fun col => has_column df col = true) COLUMNS_TO_KEEP
    /\ columns out `sublist_of` COLUMNS_TO_KEEP
    /\ NoDup (columns out)
    /\ (forall col, col ∈ columns out <-> col ∈ COLUMNS_TO_KEEP /\ col ∈ columns df)
    /\ nrows out = nrows df
    /\ (aligned df -> (forall x, length (to_datetime fs x) = series_len x) ->
        aligned out).
Proof.
  intros Hex Hread _ Hcsv.
  destruct (process_data_reads fs source_path dest_path df Hex Hread) as (Hcols & logs & Hrun).
  rewrite Hcsv in Hrun. eexists _, _. split; [exact Hrun|].
  split; [exact Hcols|]. rewrite Hcols.
  split; [apply sublist_filter|].
  split; [apply NoDup_filter, keep_NoDup|].
  split.
  { intros col. rewrite list_elem_of_filter. unfold has_column.
    rewrite bool_decide_eq_true. tauto. }
  split; [reflexivity|].
  intros Hal Hlen. unfold aligned. cbn [data nrows].
  apply cleaned_aligned; assumption.
Qed.

Lemma cleaned_schema_witness :
  exists logs out,
    process_data raw_files "yfinance_data.csv" "yfinance_data_cleaned.csv"
    = (logs, Some out, None)
    /\ columns out = filter (fun col => has_column raw_frame col = true) COLUMNS_TO_KEEP
    /\ columns out `sublist_of` COLUMNS_TO_KEEP
    /\ NoDup (columns out)
    /\ (forall col, col ∈ columns out <-> col ∈ COLUMNS_TO_KEEP /\ col ∈ columns raw_frame)
    /\ nrows out = nrows raw_frame
    /\ (aligned raw_frame ->
        (forall x, length (to_datetime raw_files x) = series_len x) ->
        aligned out).
Proof.
  apply (cleaned_schema raw_files "yfinance_data.csv" "yfinance_data_cleaned.csv" raw_frame).
  - reflexivity.
  - reflexivity.
  - apply (bool_decide_unpack _). vm_compute. exact I.
  - reflexivity.
Defined.

(** X18.  In the frame [process_data] writes, a column that is not desired
    is absent, and a desired column of the source is there as [cleaned]
    describes it: a date column is the date conversion of the source
    column; a numeric column is the source column with every text pandas
    cannot read as a number, and every missing value, turned into NaN;
    any other column is the source column, unchanged. *)
Theorem cleaned_columns fs source_path dest_path df logs out col :
  read_csv fs = Ok df -> NoDup (columns df) ->
  process_data fs source_path dest_path = (logs, Some out, None) ->
  getitem out col
  = if bool_decide (col ∈ COLUMNS_TO_KEEP) then cleaned fs col <$> getitem df col
    else None.
Proof.
  intros Hread _ Hrun.
  assert (Hex : path_exists fs = true).
  { unfold process_data in Hrun. destruct (path_exists fs); [reflexivity|].
    simpl in Hrun. discriminate. }
  destruct (process_data_reads fs source_path dest_path df Hex Hread) as (_ & logs' & Hrun').
  apply (f_equal (fun r => snd (fst r))) in Hrun'. rewrite Hrun in Hrun'.
  cbn [fst snd] in Hrun'.
  destruct (to_csv_error fs); cbn [fst snd] in Hrun'; [discriminate|].
  apply (inj Some) in Hrun'. rewrite Hrun'. unfold getitem. cbn [data].
  apply lookup_pick.
Qed.

Lemma cleaned_columns_witness :
  getitem raw_cleaned "marketCap"
  = if bool_decide ("marketCap" ∈ COLUMNS_TO_KEEP)
    then cleaned raw_files "marketCap" <$> getitem raw_frame "marketCap"
    else None.
Proof.
  apply (cleaned_columns raw_files "yfinance_data.csv" "yfinance_data_cleaned.csv"
           raw_frame
           (fst (fst (process_data raw_files "yfinance_data.csv"
                        "yfinance_data_cleaned.csv")))).
  - reflexivity.
  - apply (bool_decide_unpack _). vm_compute. exact I.
  - vm_compute. reflexivity.
Defined.


